(** * Offline task manager: local store and synchronisation engine

    A shallow embedding of [lib/indexedDB.ts] (the [offlineDB] object),
    [app/actions/syncActions.ts], [lib/supabase/actions.ts] (the [onlineDB]
    object) and [lib/syncManager.ts], followed by the properties of the
    consolidation rules and of one synchronisation pass.

    Layout:
    - [Task], JavaScript truthiness and object spread on tasks;
    - the IndexedDB object store ['tasks'] (key path [local_id], unique index
      on [id]) as a finite map, with [put] raising the errors IndexedDB raises;
    - the [offlineDB] transactions as functions [Store -> Result _];
    - the remote gateway and the server actions;
    - the sync engine in a state-and-exception monad over a [World];
    - the theorems. *)

From Stdlib Require Import Ascii String.
From stdpp Require Import gmap strings list fin_maps sorting.

Set Default Proof Using "Type".
Open Scope string_scope.

(** ** Tasks ([lib/types.ts]) *)

(** [z.enum(['pending', 'in_progress', 'completed'])] *)
Inductive TaskStatus := pending | in_progress | completed.

(** [z.enum(['synced', 'pending_create', 'pending_update', 'pending_delete'])] *)
Inductive SyncStatus := synced | pending_create | pending_update | pending_delete.

Global Instance TaskStatus_eq_dec : EqDecision TaskStatus.
Proof. solve_decision. Defined.
Global Instance SyncStatus_eq_dec : EqDecision SyncStatus.
Proof. solve_decision. Defined.

(** [type Task = z.infer<typeof TaskSchema>].  An optional property is an
    [option]: [None] is a property the object does not have.  [description]
    and [assigned_to] are optional and nullable: [Some None] is a property
    holding [null].  The code tests [sync_status] for absence, so it is
    optional here as well. *)
Record Task := mkTask {
  id : option string;
  local_id : option string;
  title : string;
  description : option (option string);
  assigned_to : option (option string);
  status : TaskStatus;
  is_deleted : option bool;
  created_at : option string;
  updated_at : option string;
  sync_status : option SyncStatus;
}.

Global Instance Task_eq_dec : EqDecision Task.
Proof. solve_decision. Defined.

(** Property assignments [task.f = v]. *)
Definition set_id (v : option string) (t : Task) : Task :=
  mkTask v (local_id t) (title t) (description t) (assigned_to t) (status t)
         (is_deleted t) (created_at t) (updated_at t) (sync_status t).
Definition set_local_id (v : option string) (t : Task) : Task :=
  mkTask (id t) v (title t) (description t) (assigned_to t) (status t)
         (is_deleted t) (created_at t) (updated_at t) (sync_status t).
Definition set_created_at (v : option string) (t : Task) : Task :=
  mkTask (id t) (local_id t) (title t) (description t) (assigned_to t) (status t)
         (is_deleted t) v (updated_at t) (sync_status t).
Definition set_updated_at (v : option string) (t : Task) : Task :=
  mkTask (id t) (local_id t) (title t) (description t) (assigned_to t) (status t)
         (is_deleted t) (created_at t) v (sync_status t).
Definition set_sync_status (v : option SyncStatus) (t : Task) : Task :=
  mkTask (id t) (local_id t) (title t) (description t) (assigned_to t) (status t)
         (is_deleted t) (created_at t) (updated_at t) v.

(** The domain fields of a task: what the user edits and the server stores. *)
Record Domain := mkDomain {
  d_title : string;
  d_description : option (option string);
  d_assigned_to : option (option string);
  d_status : TaskStatus;
  d_is_deleted : option bool;
}.

Definition domain (t : Task) : Domain :=
  mkDomain (title t) (description t) (assigned_to t) (status t) (is_deleted t).

(** ** JavaScript helpers *)

(** Truthiness of an optional string: [undefined] and [''] are falsy. *)
Definition truthy (o : option string) : bool :=
  match o with
  | Some s => negb (String.eqb s "")
  | None => false
  end.

(** [a || b] on optional strings. *)
Definition js_or (a b : option string) : option string :=
  if truthy a then a else b.

(** Strings are held as the UTF-8 bytes of the JavaScript string.
    [code_points] reads the bytes back as Unicode code points; a byte that
    starts no well-formed sequence (an overlong form included) reads as
    U+FFFD, which is what a decoder substitutes for it. *)
Definition is_continuation (b : N) : bool := (128 <=? b)%N && (b <? 192)%N.

Definition utf8_2 (a b : N) : option N :=
  if (194 <=? a)%N && (a <? 224)%N && is_continuation b
  then Some ((a - 192) * 64 + (b - 128))%N
  else None.

Definition utf8_3 (a b c : N) : option N :=
  if (224 <=? a)%N && (a <? 240)%N && is_continuation b && is_continuation c
  then
    let cp := ((a - 224) * 4096 + (b - 128) * 64 + (c - 128))%N in
    if (2048 <=? cp)%N then Some cp else None
  else None.

Definition utf8_4 (a b c d : N) : option N :=
  if (240 <=? a)%N && (a <? 245)%N
     && is_continuation b && is_continuation c && is_continuation d
  then
    let cp :=
      ((a - 240) * 262144 + (b - 128) * 4096 + (c - 128) * 64 + (d - 128))%N in
    if (65536 <=? cp)%N && (cp <=? 1114111)%N then Some cp else None
  else None.

Fixpoint code_points (s : string) : list N :=
  match s with
  | EmptyString => []
  | String a s1 =>
      let ill_formed := 65533%N :: code_points s1 in
      let a := N_of_ascii a in
      if (a <? 128)%N then a :: code_points s1 else
      match s1 with
      | EmptyString => ill_formed
      | String b s2 =>
          let b := N_of_ascii b in
          match utf8_2 a b with
          | Some cp => cp :: code_points s2
          | None =>
              match s2 with
              | EmptyString => ill_formed
              | String c s3 =>
                  let c := N_of_ascii c in
                  match utf8_3 a b c with
                  | Some cp => cp :: code_points s3
                  | None =>
                      match s3 with
                      | EmptyString => ill_formed
                      | String d s4 =>
                          match utf8_4 a b c (N_of_ascii d) with
                          | Some cp => cp :: code_points s4
                          | None => ill_formed
                          end
                      end
                  end
              end
          end
      end
  end.

(** The code points [String.prototype.trim] removes (ECMAScript WhiteSpace
    and LineTerminator): U+0009 to U+000D, U+0020, U+00A0, U+1680, U+2000 to
    U+200A, U+2028, U+2029, U+202F, U+205F, U+3000 and U+FEFF. *)
Definition is_white_space (cp : N) : bool :=
  ((9 <=? cp)%N && (cp <=? 13)%N)
  || (cp =? 32)%N || (cp =? 160)%N || (cp =? 5760)%N
  || ((8192 <=? cp)%N && (cp <=? 8202)%N)
  || (cp =? 8232)%N || (cp =? 8233)%N || (cp =? 8239)%N || (cp =? 8287)%N
  || (cp =? 12288)%N || (cp =? 65279)%N.

(** [s.trim() === ''] *)
Definition blank (s : string) : bool := forallb is_white_space (code_points s).

(** Object spread [{ ...base, ...over }] at type [Task]: a property of [over]
    wins, a property only [base] has is kept.  [title] and [status] are
    required properties of [over]. *)
Definition or_else {A} (over base : option A) : option A :=
  match over with
  | Some v => Some v
  | None => base
  end.

Definition spread (base : option Task) (over : Task) : Task :=
  match base with
  | None => over
  | Some b =>
      mkTask (or_else (id over) (id b))
             (or_else (local_id over) (local_id b))
             (title over)
             (or_else (description over) (description b))
             (or_else (assigned_to over) (assigned_to b))
             (status over)
             (or_else (is_deleted over) (is_deleted b))
             (or_else (created_at over) (created_at b))
             (or_else (updated_at over) (updated_at b))
             (or_else (sync_status over) (sync_status b))
  end.

(** ** The IndexedDB object store *)

(** The store ['tasks']: records keyed by their [local_id] (the key path). *)
Abbreviation Store := (gmap string Task).

(** What a request or the opening of the database can fail with. *)
Inductive DBError :=
  | DataError         (* the key path yields no valid key *)
  | ConstraintError   (* a unique index would hold the same key twice *)
  | StorageFailure.   (* the database cannot be opened *)

Inductive Result (A : Type) :=
  | Ok (a : A)
  | Err (e : DBError).
Arguments Ok {A} a.
Arguments Err {A} e.

(** The records the index ['id'] lists under the key [s]. *)
Definition id_holders (s : string) (st : Store) : Store :=
  filter (λ kt, id kt.2 = Some s) st.

(** [db.getFromIndex('tasks', 'id', s)] and [store.index('id').get(s)]: the
    index is unique, so at most one record is listed under [s]. *)
Definition getFromIndex_id (s : string) (st : Store) : option Task :=
  snd <$> head (map_to_list (id_holders s st)).

(** [store.put(t)]: the key is read from [t.local_id]; the request fails when
    another record already has the same [id] (index created with
    [{ unique: true }]); a record without [id] is not indexed. *)
Definition put (t : Task) (st : Store) : Result Store :=
  match local_id t with
  | None => Err DataError
  | Some k =>
      match id t with
      | None => Ok (<[k := t]> st)
      | Some s =>
          if bool_decide (map_Forall (λ k' _, k' = k) (id_holders s st))
          then Ok (<[k := t]> st)
          else Err ConstraintError
      end
  end.

(** The three facts IndexedDB and the callers maintain: a record sits under
    the key its [local_id] names, keys are not empty, and no two records share
    an [id]. *)
Definition wf_record (st : Store) (k : string) (t : Task) : Prop :=
  local_id t = Some k ∧ k ≠ "" ∧
  match id t with
  | Some s => map_Forall (λ k' _, k' = k) (id_holders s st)
  | None => True
  end.

Global Instance wf_record_dec st k t : Decision (wf_record st k t).
Proof. unfold wf_record. destruct (id t); apply _. Defined.

Definition wf_store (st : Store) : Prop := map_Forall (wf_record st) st.

Global Instance wf_store_dec st : Decision (wf_store st).
Proof. unfold wf_store. apply _. Defined.

(** ** Readings of the clock and of the random generator *)

(** The values one operation reads from its environment. *)
Record Reads := mkReads {
  date_now : string;       (* [Date.now()], printed *)
  random_suffix : string;  (* [Math.random().toString(36).substring(2, 9)] *)
  iso_first : string;      (* the first [new Date().toISOString()] *)
  iso_now : string;        (* the last [new Date().toISOString()] *)
}.

(** ** [offlineDB] *)

(** [getAllTasks]: everything but reconciled tombstones. *)
Definition hidden (t : Task) : bool :=
  bool_decide (is_deleted t = Some true) && bool_decide (sync_status t = Some synced).

Definition getAllTasks (st : Store) : list Task :=
  List.filter (λ t, negb (hidden t)) (snd <$> map_to_list st).

(** [getTaskByLocalId] *)
Definition getTaskByLocalId (k : string) (st : Store) : option Task :=
  if negb (truthy (Some k)) then None else st !! k.

(** [getTaskByServerId] *)
Definition getTaskByServerId (s : string) (st : Store) : option Task :=
  if negb (truthy (Some s)) then None else getFromIndex_id s st.

(** [saveTask], lines 91-96: a missing or blank [local_id] is synthesised. *)
Definition save_assign_local_id (r : Reads) (t : Task) : Task :=
  if negb (truthy (local_id t)) || blank (default "" (local_id t)) then
    let baseForLocalId :=
      if truthy (id t) && negb (blank (default "" (id t)))
      then default "" (id t)
      else "new_" ++ date_now r in
    set_local_id (Some ("local_" ++ baseForLocalId ++ "_" ++ random_suffix r)) t
  else t.

(** Lines 103-109 of [saveTask], 154-162 of [bulkSaveTasks]: reuse the
    [local_id] of the record that already has this server [id]. *)
Definition consolidate (st : Store) (t : Task) : Task :=
  if truthy (id t) then
    match getFromIndex_id (default "" (id t)) st with
    | Some existing =>
        if truthy (local_id existing) && bool_decide (local_id existing ≠ local_id t)
        then set_local_id (local_id existing) t
        else t
    | None => t
    end
  else t.

(** Lines 112-131 of [saveTask]. *)
Definition save_stamp (r : Reads) (t : Task) : Task :=
  let t :=
    if negb (truthy (id t)) && bool_decide (sync_status t ≠ Some pending_create) then
      let t := set_sync_status (Some pending_create) t in
      if negb (truthy (created_at t)) then set_created_at (Some (iso_first r)) t else t
    else t in
  let t := set_updated_at (Some (iso_now r)) t in
  let t := if negb (truthy (created_at t)) then set_created_at (updated_at t) t else t in
  if bool_decide (sync_status t = None) then set_sync_status (Some synced) t else t.

Definition save_record (r : Reads) (taskInput : Task) (st : Store) : Task :=
  save_stamp r (consolidate st (save_assign_local_id r taskInput)).

(** [saveTask]: returns the [local_id] used and the new store. *)
Definition saveTask (r : Reads) (taskInput : Task) (st : Store)
  : Result (string * Store) :=
  let taskToSave := save_record r taskInput st in
  match put taskToSave st with
  | Ok st' => Ok (default "" (local_id taskToSave), st')
  | Err e => Err e
  end.

(** [bulkSaveTasks], the body of the loop (lines 145-179). *)
Definition bulk_assign_local_id (r : Reads) (t : Task) : Task :=
  if negb (truthy (local_id t)) then
    set_local_id
      (js_or (id t) (Some ("local_new_" ++ date_now r ++ "_" ++ random_suffix r))) t
  else t.

Definition bulk_stamp (r : Reads) (t : Task) : Task :=
  let t := if negb (truthy (updated_at t)) then set_updated_at (Some (iso_now r)) t else t in
  let t := if negb (truthy (created_at t)) then set_created_at (updated_at t) t else t in
  let t :=
    if truthy (id t) && bool_decide (sync_status t = None)
    then set_sync_status (Some synced) t else t in
  if bool_decide (sync_status t = None) then set_sync_status (Some synced) t else t.

Definition bulk_record (r : Reads) (task : Task) (st : Store) : Task :=
  bulk_stamp r (consolidate st (bulk_assign_local_id r task)).

(** [bulkSaveTasks]: one read-write transaction; [rd i] is what the [i]-th
    iteration reads from the clock and the random generator.  A failed [put]
    aborts the transaction: the caller is left with the store it had. *)
Fixpoint bulkSaveTasks_from (rd : nat → Reads) (i : nat) (tasks : list Task)
    (st : Store) : Result Store :=
  match tasks with
  | [] => Ok st
  | task :: rest =>
      match put (bulk_record (rd i) task st) st with
      | Ok st' => bulkSaveTasks_from rd (S i) rest st'
      | Err e => Err e
      end
  end.

Definition bulkSaveTasks (rd : nat → Reads) (tasks : list Task) (st : Store)
  : Result Store :=
  bulkSaveTasks_from rd 0 tasks st.

(** [deleteTask] *)
Definition deleteTask (k : string) (st : Store) : Store := delete k st.

(** [index('sync_status').getAll(s)]: the records with this status, in the
    order of their keys. *)
Definition key_le (a b : string * Task) : Prop := String.leb a.1 b.1 = true.

Global Instance key_le_dec a b : Decision (key_le a b).
Proof. unfold key_le. apply _. Defined.

Definition getAll_by_sync_status (s : SyncStatus) (st : Store) : list Task :=
  snd <$> merge_sort key_le
            (List.filter (λ kt, bool_decide (sync_status kt.2 = Some s)) (map_to_list st)).

(** [getPendingChanges] *)
Definition getPendingChanges (st : Store) : list Task :=
  getAll_by_sync_status pending_create st ++
  getAll_by_sync_status pending_update st ++
  getAll_by_sync_status pending_delete st.

(** [updateTaskAfterSync], lines 216-231: the record to store. *)
Definition merge_with_server (now : string) (originalLocalId : string)
    (taskThatWasSynced : option Task) (serverTaskData : Task) : Task :=
  let m := spread taskThatWasSynced serverTaskData in
  let m := set_local_id (Some originalLocalId) m in
  let m := set_sync_status (Some synced) m in
  let m := set_updated_at (js_or (updated_at serverTaskData) (Some now)) m in
  let m :=
    if negb (truthy (created_at m)) && truthy (taskThatWasSynced ≫= created_at)
    then set_created_at (taskThatWasSynced ≫= created_at) m
    else if negb (truthy (created_at m)) then set_created_at (updated_at m) m
    else m in
  set_local_id (Some originalLocalId) m.

(** Lines 239-254: the [local_id] of the record that already has the server
    [id], when it is not [originalLocalId]. *)
Definition conflicting_local_id (originalLocalId : string) (serverTaskData : Task)
    (st : Store) : option string :=
  if truthy (id serverTaskData) then
    match getFromIndex_id (default "" (id serverTaskData)) st with
    | Some conflict =>
        if truthy (local_id conflict) && bool_decide (local_id conflict ≠ Some originalLocalId)
        then local_id conflict
        else None
    | None => None
    end
  else None.

(** [updateTaskAfterSync]: one read-write transaction. *)
Definition updateTaskAfterSync (now : string) (originalLocalId : string)
    (serverTaskData : Task) (st : Store) : Result Store :=
  let taskThatWasSynced := st !! originalLocalId in
  let merged := merge_with_server now originalLocalId taskThatWasSynced serverTaskData in
  match conflicting_local_id originalLocalId serverTaskData st with
  | Some finalLocalIdToUse =>
      let oldLocalIdToDelete := originalLocalId in
      match put (set_local_id (Some finalLocalIdToUse) merged) st with
      | Ok st' =>
          if truthy (Some oldLocalIdToDelete)
             && bool_decide (oldLocalIdToDelete ≠ finalLocalIdToUse)
          then Ok (delete oldLocalIdToDelete st')
          else Ok st'
      | Err e => Err e
      end
  | None => put merged st
  end.

(** The optional third argument of [updateLocalTaskStatus]. *)
Record ServerData := mkServerData {
  sd_id : option string;
  sd_updated_at : option string;
}.

(** [updateLocalTaskStatus] *)
Definition updateLocalTaskStatus (now : string) (local_id_param : string)
    (new_status : SyncStatus) (serverData : option ServerData) (st : Store)
  : Result Store :=
  match st !! local_id_param with
  | Some task =>
      let t := set_local_id (Some local_id_param) task in
      let t := set_sync_status (Some new_status) t in
      let t := set_updated_at (js_or (serverData ≫= sd_updated_at) (Some now)) t in
      let t := if truthy (serverData ≫= sd_id) then set_id (serverData ≫= sd_id) t else t in
      put t st
  | None => Ok st
  end.

(** ** The remote gateway ([lib/supabase/actions.ts]) *)

(** [CreateTaskPayload]: [null] is [None]. *)
Record CreateTaskPayload := mkCreate {
  c_title : string;
  c_description : option string;
  c_assigned_to : option string;
  c_status : TaskStatus;
}.

(** [Partial<Omit<Task, 'id' | 'created_at'>>], the [updates] argument of
    [onlineDB.updateTask]: every property is optional. *)
Record TaskUpdates := mkUpdates {
  u_local_id : option string;
  u_title : option string;
  u_description : option (option string);
  u_assigned_to : option (option string);
  u_status : option TaskStatus;
  u_is_deleted : option bool;
  u_updated_at : option string;
  u_sync_status : option SyncStatus;
}.

(** The Supabase client, an external collaborator: each query answers with a
    row (or rows) or with an error, and moves the remote store, whose states
    are [Remote].  [server_now] is the clock of the host running the server
    actions. *)
Record Supabase (Remote : Type) := mkSupabase {
  insert_row : CreateTaskPayload → Remote → (string + Task) * Remote;
  update_row : string → TaskUpdates → Remote → (string + Task) * Remote;
  select_rows : option string → Remote → (string + list Task) * Remote;
  server_now : Remote → string;
}.
Arguments insert_row {Remote} _ _ _.
Arguments update_row {Remote} _ _ _ _.
Arguments select_rows {Remote} _ _ _.
Arguments server_now {Remote} _ _.

(** What the client reads from its environment at each step of a run: the
    clock and the random generator, whether the database opens, and whether a
    server action invoked at that step reaches the server. *)
Record Oracles := mkOracles {
  reads : nat → Reads;
  storage_available : nat → bool;
  action_reachable : nat → bool;
}.

(** What a server action answers to [syncPendingTaskWithServer]. *)
Record PushResult := mkPush {
  p_success : bool;
  syncedTask : option Task;
  p_error : option string;
}.

(** What [fetchServerUpdates] answers. *)
Record FetchResult := mkFetch {
  tasks : option (list Task);
  f_error : option string;
}.

(** What the client code can throw. *)
Inductive Exn :=
  | DBFailed (e : DBError)
  | ActionUnreachable.

(** The [error] property of the result of [synchronize]. *)
Inductive SyncError :=
  | ErrorMessage (msg : string)
  | ErrorCaught (e : Exn).

(** The result of [synchronize]. *)
Record SyncResult := mkSyncResult {
  success : bool;
  updatedTasks : option (list Task);
  error : option SyncError;
}.

Inductive Outcome (A : Type) :=
  | Returned (a : A)
  | Thrown (e : Exn).
Arguments Returned {A} a.
Arguments Thrown {A} e.

Section Engine.
Context {Remote : Type}.
Variable sb : Supabase Remote.
Variable env : Oracles.

(** *** [onlineDB] *)

(** A row tagged [{ ...data, sync_status: 'synced' }]. *)
Definition tag_synced (data : Task) : Task := set_sync_status (Some synced) data.

Definition onlineDB_createTask (taskData : CreateTaskPayload) (r : Remote)
  : (string + Task) * Remote :=
  match insert_row sb taskData r with
  | (inl e, r') => (inl e, r')
  | (inr data, r') => (inr (tag_synced data), r')
  end.

Definition onlineDB_updateTask (i : string) (updates : TaskUpdates) (r : Remote)
  : (string + Task) * Remote :=
  let patch :=
    mkUpdates (u_local_id updates) (u_title updates) (u_description updates)
              (u_assigned_to updates) (u_status updates) (u_is_deleted updates)
              (Some (server_now sb r)) (u_sync_status updates) in
  match update_row sb i patch r with
  | (inl e, r') => (inl e, r')
  | (inr data, r') => (inr (tag_synced data), r')
  end.

Definition onlineDB_softDeleteTask (i : string) (r : Remote)
  : (string + Task) * Remote :=
  let patch :=
    mkUpdates None None None None None (Some true) (Some (server_now sb r)) None in
  match update_row sb i patch r with
  | (inl e, r') => (inl e, r')
  | (inr data, r') => (inr (tag_synced data), r')
  end.

Definition onlineDB_getTasksModifiedSince (timestamp : option string) (r : Remote)
  : (string + list Task) * Remote :=
  match select_rows sb (if truthy timestamp then timestamp else None) r with
  | (inl e, r') => (inl e, r')
  | (inr data, r') => (inr (tag_synced <$> data), r')
  end.

(** *** Server actions ([app/actions/syncActions.ts]) *)

(** [x ?? null] on an optional nullable property. *)
Definition or_null (x : option (option string)) : option string := mjoin x.

Definition payloadForCreate (task : Task) : CreateTaskPayload :=
  mkCreate (title task) (or_null (description task)) (or_null (assigned_to task))
           (status task).

Definition payloadForUpdate (task : Task) : TaskUpdates :=
  mkUpdates None (Some (title task)) (Some (or_null (description task)))
            (Some (or_null (assigned_to task))) (Some (status task))
            (is_deleted task) None None.

(** The request [syncPendingTaskWithServer] sends for a task, if any. *)
Inductive GatewayCall :=
  | CallCreate (payload : CreateTaskPayload)
  | CallUpdate (i : string) (payload : TaskUpdates)
  | CallSoftDelete (i : string).

Definition dispatch (task : Task) : option GatewayCall :=
  if bool_decide (sync_status task = Some pending_create) && negb (truthy (id task))
  then Some (CallCreate (payloadForCreate task))
  else if bool_decide (sync_status task = Some pending_update) && truthy (id task)
  then Some (CallUpdate (default "" (id task)) (payloadForUpdate task))
  else if bool_decide (sync_status task = Some pending_delete) && truthy (id task)
  then Some (CallSoftDelete (default "" (id task)))
  else None.

Definition perform (c : GatewayCall) (r : Remote) : (string + Task) * Remote :=
  match c with
  | CallCreate payload => onlineDB_createTask payload r
  | CallUpdate i payload => onlineDB_updateTask i payload r
  | CallSoftDelete i => onlineDB_softDeleteTask i r
  end.

Definition invalid_message (task : Task) : string :=
  "Invalid sync_status or missing ID for task "
    ++ default "undefined" (js_or (local_id task) (id task)).

Definition syncPendingTaskWithServer (task : Task) (r : Remote)
  : PushResult * Remote :=
  match dispatch task with
  | Some c =>
      match perform c r with
      | (inr synced_task, r') => (mkPush true (Some synced_task) None, r')
      | (inl msg, r') => (mkPush false None (Some msg), r')
      end
  | None => (mkPush false None (Some (invalid_message task)), r)
  end.

Definition fetchServerUpdates (lastSyncTimestamp : option string) (r : Remote)
  : FetchResult * Remote :=
  match onlineDB_getTasksModifiedSince lastSyncTimestamp r with
  | (inr ts, r') => (mkFetch (Some ts) None, r')
  | (inl msg, r') => (mkFetch None (Some msg), r')
  end.

(** *** The client: state and exceptions *)

(** Everything a pass reads or writes: the object store, the [isSyncing]
    flag of [syncManager], [navigator.onLine] ([None] where [navigator] is
    not defined), the item [taskManager_lastSyncTimestamp] of [localStorage]
    (outer [None] where [window] is not defined, inner [None] for no item),
    the remote store, and the number of environment readings made so far. *)
Record World := mkWorld {
  store : Store;
  isSyncing : bool;
  navigator_onLine : option bool;
  localStorage : option (option string);
  remote : Remote;
  step : nat;
}.

Definition set_store (st : Store) (w : World) : World :=
  mkWorld st (isSyncing w) (navigator_onLine w) (localStorage w) (remote w) (step w).
Definition set_isSyncing (b : bool) (w : World) : World :=
  mkWorld (store w) b (navigator_onLine w) (localStorage w) (remote w) (step w).
Definition set_localStorage (v : option (option string)) (w : World) : World :=
  mkWorld (store w) (isSyncing w) (navigator_onLine w) v (remote w) (step w).
Definition set_remote (r : Remote) (w : World) : World :=
  mkWorld (store w) (isSyncing w) (navigator_onLine w) (localStorage w) r (step w).
Definition set_step (n : nat) (w : World) : World :=
  mkWorld (store w) (isSyncing w) (navigator_onLine w) (localStorage w) (remote w) n.

(** An asynchronous computation of the client: it ends by returning or by
    throwing, in a new world. *)
Definition M (A : Type) : Type := World → Outcome A * World.

Definition ret {A} (a : A) : M A := λ w, (Returned a, w).
Definition throw {A} (e : Exn) : M A := λ w, (Thrown e, w).
Definition bind {A B} (m : M A) (k : A → M B) : M B :=
  λ w, match m w with
       | (Returned a, w') => k a w'
       | (Thrown e, w') => (Thrown e, w')
       end.
(** [try { m } catch (e) { h e }] *)
Definition try_catch {A} (m : M A) (h : Exn → M A) : M A :=
  λ w, match m w with
       | (Returned a, w') => (Returned a, w')
       | (Thrown e, w') => h e w'
       end.
Definition get_world : M World := λ w, (Returned w, w).
Definition modify (f : World → World) : M unit := λ w, (Returned tt, f w).

Notation "x <- m ;; k" := (bind m (λ x, k))
  (at level 100, m at next level, right associativity).
Notation "m ;;; k" := (bind m (λ _, k))
  (at level 100, right associativity).

(** One more reading of the environment; its index. *)
Definition tick : M nat :=
  λ w, (Returned (step w), set_step (S (step w)) w).

(** The clock and the random generator. *)
Definition read_env : M Reads := n <- tick ;; ret (reads env n).

(** [await getDB()] *)
Definition getDB : M unit :=
  n <- tick ;;
  if storage_available env n then ret tt else throw (DBFailed StorageFailure).

(** A transaction on the object store: committed when it ends, aborted, with
    the store untouched, when a request fails. *)
Definition transaction {A} (f : Store → Result (A * Store)) : M A :=
  λ w, match f (store w) with
       | Ok (a, st') => (Returned a, set_store st' w)
       | Err e => (Thrown (DBFailed e), w)
       end.

Definition with_unit (x : Result Store) : Result (unit * Store) :=
  match x with
  | Ok st' => Ok (tt, st')
  | Err e => Err e
  end.

(** A server action invoked from the client: the call is answered by the
    server, or its promise is rejected. *)
Definition call_action {A} (f : Remote → A * Remote) : M A :=
  n <- tick ;;
  if action_reachable env n
  then λ w, let '(a, r') := f (remote w) in (Returned a, set_remote r' w)
  else throw ActionUnreachable.

(** *** [offlineDB], as the sync engine calls it *)

Definition getPendingChanges_io : M (list Task) :=
  getDB ;;; w <- get_world ;; ret (getPendingChanges (store w)).

Definition updateTaskAfterSync_io (originalLocalId : string) (serverTaskData : Task)
  : M unit :=
  getDB ;;;
  r <- read_env ;;
  transaction
    (λ st, with_unit (updateTaskAfterSync (iso_now r) originalLocalId serverTaskData st)).

Definition bulkSaveTasks_io (ts : list Task) : M unit :=
  getDB ;;;
  w <- get_world ;;
  transaction (λ st, with_unit (bulkSaveTasks (λ i, reads env (step w + i)) ts st)) ;;;
  modify (set_step (step w + length ts)).

(** *** [syncManager] ([lib/syncManager.ts]) *)

Definition getLastSyncTimestamp : M (option string) :=
  w <- get_world ;;
  match localStorage w with
  | Some item => ret item
  | None => ret None
  end.

Definition setLastSyncTimestamp (timestamp : string) : M unit :=
  w <- get_world ;;
  match localStorage w with
  | Some _ => modify (set_localStorage (Some (Some timestamp)))
  | None => ret tt
  end.

(** The body of the [for] loop of the push phase, lines 33-49. *)
Definition push_one (task : Task) : M unit :=
  try_catch
    (res <- call_action (syncPendingTaskWithServer task) ;;
     match syncedTask res with
     | Some server_task =>
         if p_success res && truthy (local_id task)
         then updateTaskAfterSync_io (default "" (local_id task)) server_task
         else ret tt
     | None => ret tt
     end)
    (λ _, ret tt).

Fixpoint push_loop (pendingTasks : list Task) : M unit :=
  match pendingTasks with
  | [] => ret tt
  | task :: rest => push_one task ;;; push_loop rest
  end.

(** Lines 28-50: the push phase. *)
Definition push_phase : M unit :=
  pendingTasks <- getPendingChanges_io ;;
  push_loop pendingTasks.

(** Lines 54-56: the fetch of the pull phase. *)
Definition pull_fetch (forceFullSync : bool) : M FetchResult :=
  lastSync <- (if forceFullSync then ret None else getLastSyncTimestamp) ;;
  call_action (fetchServerUpdates lastSync).

(** Lines 62-73: merge what was fetched, move the watermark, release the
    flag and report. *)
Definition pull_merge_and_finish (fetched : FetchResult) : M SyncResult :=
  let serverUpdates := tasks fetched in
  (match serverUpdates with
   | Some [] | None => ret tt
   | Some l => bulkSaveTasks_io l
   end) ;;;
  r <- read_env ;;
  setLastSyncTimestamp (iso_now r) ;;;
  modify (set_isSyncing false) ;;;
  ret (mkSyncResult true serverUpdates None).

Definition offline_result : SyncResult :=
  mkSyncResult false None (Some (ErrorMessage "Offline")).
Definition busy_result : SyncResult :=
  mkSyncResult false None (Some (ErrorMessage "Sync in progress")).

Definition is_offline (w : World) : bool :=
  match navigator_onLine w with
  | Some onLine => negb onLine
  | None => false
  end.

(** Lines 54-73: the pull phase and the end of the pass. *)
Definition pull_phase (forceFullSync : bool) : M SyncResult :=
  fetched <- pull_fetch forceFullSync ;;
  pull_merge_and_finish fetched.

(** Lines 74-78: the [catch] block. *)
Definition on_failure (e : Exn) : M SyncResult :=
  modify (set_isSyncing false) ;;;
  ret (mkSyncResult false None (Some (ErrorCaught e))).

Definition synchronize (forceFullSync : bool) : M SyncResult :=
  w <- get_world ;;
  if is_offline w then ret offline_result
  else if isSyncing w then ret busy_result
  else
    modify (set_isSyncing true) ;;;
    try_catch (push_phase ;;; pull_phase forceFullSync) on_failure.


(** The computation touches neither the watermark nor the flag. *)
Definition keeps_engine_state {A} (m : M A) : Prop :=
  ∀ w o w', m w = (o, w') →
    localStorage w' = localStorage w ∧ isSyncing w' = isSyncing w.


End Engine.

Arguments mkWorld {Remote} _ _ _ _ _ _.
Arguments store {Remote} _.
Arguments isSyncing {Remote} _.
Arguments navigator_onLine {Remote} _.
Arguments localStorage {Remote} _.
Arguments remote {Remote} _.
Arguments step {Remote} _.

(** ** Sequences of calls and invariants *)

(** A sequence of [saveTask] calls; a call that throws leaves the store as it
    was. *)
Fixpoint run_saves (calls : list (Reads * Task)) (st : Store) : Store :=
  match calls with
  | [] => st
  | (r, t) :: rest =>
      match saveTask r t st with
      | Ok (_, st') => run_saves rest st'
      | Err _ => run_saves rest st
      end
  end.

(** At most one record for each server [id]. *)
Definition unique_server_ids (st : Store) : Prop :=
  ∀ k1 k2 t1 t2 s,
    st !! k1 = Some t1 → st !! k2 = Some t2 → id t1 = Some s → id t2 = Some s → k1 = k2.


Definition result_store (x : Result (string * Store)) : Result Store :=
  match x with
  | Ok (_, st') => Ok st'
  | Err e => Err e
  end.

(** The reading [r] with the clock showing [iso] at the last reading. *)
Definition with_iso_now (iso : string) (r : Reads) : Reads :=
  mkReads (date_now r) (random_suffix r) (iso_first r) iso.

(** The [updated_at] [bulkSaveTasks] stores for [t]: the one [t] carries, or
    the reading of the clock when it carries none. *)
Definition kept_updated_at (t : Task) (r : Reads) : string :=
  if truthy (updated_at t) then default "" (updated_at t) else iso_now r.

(** The operations of the local store that write. *)
Inductive Op :=
  | OpSave (r : Reads) (t : Task)
  | OpBulkSave (rd : nat → Reads) (ts : list Task)
  | OpReconcile (now : string) (k : string) (serverTask : Task)
  | OpSetStatus (now : string) (k : string) (s : SyncStatus) (sd : option ServerData)
  | OpDelete (k : string).

(** The store after an operation; an operation that throws changes nothing. *)
Definition apply_op (op : Op) (st : Store) : Store :=
  let after (x : Result Store) := match x with Ok st' => st' | Err _ => st end in
  match op with
  | OpSave r t => after (result_store (saveTask r t st))
  | OpBulkSave rd ts => after (bulkSaveTasks rd ts st)
  | OpReconcile now k serverTask => after (updateTaskAfterSync now k serverTask st)
  | OpSetStatus now k s sd => after (updateLocalTaskStatus now k s sd st)
  | OpDelete k => deleteTask k st
  end.

Definition run_ops (ops : list Op) (st : Store) : Store :=
  foldl (λ st op, apply_op op st) st ops.

(** [updateTaskAfterSync] is called with a [local_id] that is not empty, as
    [synchronize] does. *)
Definition names_a_key (op : Op) : Prop :=
  match op with
  | OpReconcile _ k _ => k ≠ ""
  | _ => True
  end.

(** A [synced] record has a server [id]. *)
Definition synced_has_id (st : Store) : Prop :=
  map_Forall (λ _ t, sync_status t = Some synced → is_Some (id t)) st.

Global Instance synced_has_id_dec st : Decision (synced_has_id st).
Proof. unfold synced_has_id. apply _. Defined.

(** The operation brings the server [id] of what it marks [synced]:
    [bulkSaveTasks] and [updateTaskAfterSync] are given server records, and
    [updateLocalTaskStatus] sets [synced] together with a server [id]. *)
Definition carries_server_id (op : Op) : Prop :=
  match op with
  | OpSave _ _ => True
  | OpBulkSave _ ts => Forall (λ t, is_Some (id t)) ts
  | OpReconcile _ _ serverTask => is_Some (id serverTask)
  | OpSetStatus _ _ s sd => s ≠ synced ∨ truthy (sd ≫= sd_id) = true
  | OpDelete _ => True
  end.

Global Instance carries_server_id_dec op : Decision (carries_server_id op).
Proof. destruct op; simpl; apply _. Defined.

(** ** A small gateway and environment for the scenarios *)

Module Scenario.

(** A server holding rows, with the ids it will hand out, its clock, and
    whether it accepts writes. *)
Record Server := mkServer {
  rows : list Task;
  fresh_ids : list string;
  clock : string;
  writable : bool;
}.

Definition insert (p : CreateTaskPayload) (sv : Server) : (string + Task) * Server :=
  match writable sv, fresh_ids sv with
  | true, i :: rest =>
      let row :=
        mkTask (Some i) None (c_title p) (Some (c_description p))
               (Some (c_assigned_to p)) (c_status p) (Some false)
               (Some (clock sv)) (Some (clock sv)) None in
      (inr row, mkServer (rows sv ++ [row]) rest (clock sv) true)
  | _, _ => (inl "insert refused", sv)
  end.

Definition apply_updates (u : TaskUpdates) (row : Task) : Task :=
  mkTask (id row) (local_id row) (default (title row) (u_title u))
         (or_else (u_description u) (description row))
         (or_else (u_assigned_to u) (assigned_to row))
         (default (status row) (u_status u))
         (or_else (u_is_deleted u) (is_deleted row))
         (created_at row) (or_else (u_updated_at u) (updated_at row))
         (sync_status row).

Fixpoint update_in (i : string) (u : TaskUpdates) (l : list Task)
  : option (Task * list Task) :=
  match l with
  | [] => None
  | row :: rest =>
      if bool_decide (id row = Some i)
      then Some (apply_updates u row, apply_updates u row :: rest)
      else match update_in i u rest with
           | Some (r, rest') => Some (r, row :: rest')
           | None => None
           end
  end.

Definition update (i : string) (u : TaskUpdates) (sv : Server)
  : (string + Task) * Server :=
  if writable sv then
    match update_in i u (rows sv) with
    | Some (r, l) => (inr r, mkServer l (fresh_ids sv) (clock sv) true)
    | None => (inl "no such row", sv)
    end
  else (inl "update refused", sv).

Definition select (since : option string) (sv : Server)
  : (string + list Task) * Server :=
  (inr (List.filter
          (λ row, match since with
                  | Some ts => String.ltb ts (default "" (updated_at row))
                  | None => true
                  end) (rows sv)), sv).

Definition supabase : Supabase Server := mkSupabase Server insert update select clock.

(** A gateway whose queries all fail. *)
Definition unavailable : Supabase Server :=
  mkSupabase Server (λ _ sv, (inl "unavailable", sv)) (λ _ _ sv, (inl "unavailable", sv))
             (λ _ sv, (inl "unavailable", sv)) clock.

Definition the_reads : Reads :=
  mkReads "1767261600000" "k3x9a2b" "2026-01-01T10:00:00.000Z" "2026-01-01T10:00:00.000Z".

(** Storage and network always there. *)
Definition fair_weather : Oracles := mkOracles (λ _, the_reads) (λ _, true) (λ _, true).

(** The network drops every server action. *)
Definition no_network : Oracles := mkOracles (λ _, the_reads) (λ _, true) (λ _, false).

(** A task created offline, never sent. *)
Definition milk : Task :=
  mkTask None (Some "local_1") "Buy milk" None None pending None None None
         (Some pending_create).

(** A task the server knows as [srv-1], edited offline. *)
Definition bread_row : Task :=
  mkTask (Some "srv-1") None "Buy bread" (Some None) (Some None) pending (Some false)
         (Some "2025-12-01T08:00:00.000Z") (Some "2025-12-01T08:00:00.000Z") None.

Definition bread_edited : Task :=
  mkTask (Some "srv-1") (Some "local_B") "Buy rye bread" (Some None) (Some None)
         in_progress (Some false)
         (Some "2025-12-01T08:00:00.000Z") (Some "2025-12-20T09:00:00.000Z")
         (Some pending_update).

(** The same server task as the server returns it after a push. *)
Definition bread_from_server : Task :=
  mkTask (Some "srv-1") None "Buy rye bread" (Some None) (Some None) in_progress
         (Some false)
         (Some "2025-12-01T08:00:00.000Z") (Some "2025-12-21T09:00:00.000Z")
         (Some synced).

(** A second local record, sent as a create, that the server answered with
    [srv-1]. *)
Definition bread_duplicate : Task :=
  mkTask None (Some "local_A") "Buy rye bread" None None pending None
         (Some "2025-12-19T07:00:00.000Z") (Some "2025-12-19T07:00:00.000Z")
         (Some pending_create).

(** The server task as a page of results brings it to a client that already
    has it under [local_B]. *)
Definition bread_known : Task := set_local_id (Some "local_B") bread_from_server.

(** A task with neither a server id nor a status. *)
Definition draft : Task :=
  mkTask None None "Call the plumber" None None pending None None None None.

(** A record marked [pending_create] that already has a server id. *)
Definition bread_mislabeled : Task :=
  mkTask (Some "srv-1") (Some "local_B") "Buy rye bread" (Some None) (Some None)
         in_progress (Some false)
         (Some "2025-12-01T08:00:00.000Z") (Some "2025-12-20T09:00:00.000Z")
         (Some pending_create).

Definition store_AB : Store :=
  <["local_A" := bread_duplicate]> (<["local_B" := bread_edited]> ∅).

Definition store_B : Store := <["local_B" := bread_edited]> ∅.

Definition store_milk : Store := <["local_1" := milk]> ∅.

Definition store_milk_B : Store :=
  <["local_1" := milk]> (<["local_B" := bread_edited]> ∅).

Definition server_with_bread (w : bool) : Server :=
  mkServer [bread_row] ["srv-2"; "srv-3"] "2026-01-01T09:59:59.000Z" w.

Definition browser (st : Store) (syncing : bool) (onLine : bool) (sv : Server)
  : World (Remote := Server) :=
  mkWorld st syncing (Some onLine) (Some None) sv 0.

End Scenario.

(** Case analysis on every [if] and [match] of a goal. *)
Ltac crush_ifs := repeat case_match; simpl in *; try done.

(** ** Further invariants of the store *)

(** A record with its key, its two timestamps and its status: what the key
    path and the indexes ['sync_status'] and ['updated_at'] read. *)
Definition complete (t : Task) : Prop :=
  is_Some (local_id t) ∧ is_Some (created_at t) ∧ is_Some (updated_at t) ∧
  is_Some (sync_status t).

Global Instance complete_dec t : Decision (complete t).
Proof. unfold complete. apply _. Defined.

Definition all_complete (st : Store) : Prop := map_Forall (λ _ t, complete t) st.

Global Instance all_complete_dec st : Decision (all_complete st).
Proof. unfold all_complete. apply _. Defined.

(** The three statuses [getPendingChanges] asks the index for. *)
Definition is_pending (t : Task) : Prop :=
  sync_status t = Some pending_create ∨ sync_status t = Some pending_update ∨
  sync_status t = Some pending_delete.

Global Instance is_pending_dec t : Decision (is_pending t).
Proof. unfold is_pending. apply _. Defined.

(** ** Further notions for the sync engine *)

Section EngineNotions.
Context {Remote : Type}.

(** The computation neither reads nor writes the watermark: run with another
    content of [localStorage], it does the same and leaves that content. *)
Definition watermark_blind {A} (m : M (Remote := Remote) A) : Prop :=
  ∀ w v, m (set_localStorage v w) = ((m w).1, set_localStorage v (m w).2).

(** The watermark as [getTasksModifiedSince] would use it. *)
Definition stored_watermark (w : World (Remote := Remote)) : option string :=
  mjoin (localStorage w).

End EngineNotions.

(** ** [deleteTaskAction] ([app/actions/taskActions.ts]) *)

(** [ActionResult] without data, as [deleteTaskAction] returns it. *)
Record ActionResult := mkAction {
  a_success : bool;
  a_error : option string;
}.

Section TaskActions.
Context {Remote : Type}.
Variable sb : Supabase Remote.

(** [deleteTaskAction]; [revalidatePath], which only drops cached pages, is
    left out. *)
Definition deleteTaskAction (taskId : string) (r : Remote) : ActionResult * Remote :=
  if negb (truthy (Some taskId))
  then (mkAction false (Some "Task ID es requerido para la eliminación."), r)
  else
    match onlineDB_softDeleteTask sb taskId r with
    | (inr _, r') => (mkAction true None, r')
    | (inl msg, r') =>
        (mkAction false
           (js_or (Some msg) (Some "Error desconocido al eliminar la tarea.")), r')
    end.

End TaskActions.

(** ** The offline paths of the components *)

Definition set_is_deleted (v : option bool) (t : Task) : Task :=
  mkTask (id t) (local_id t) (title t) (description t) (assigned_to t) (status t)
         v (created_at t) (updated_at t) (sync_status t).

(** [Partial<Task>]: every property optional. *)
Record PartialTask := mkPartial {
  p_id : option string;
  p_local_id : option string;
  p_title : option string;
  p_description : option (option string);
  p_assigned_to : option (option string);
  p_status : option TaskStatus;
  p_is_deleted : option bool;
  p_created_at : option string;
  p_updated_at : option string;
  p_sync_status : option SyncStatus;
}.

(** [{ ...task, ...updates }] *)
Definition spread_partial (task : Task) (updates : PartialTask) : Task :=
  mkTask (or_else (p_id updates) (id task))
         (or_else (p_local_id updates) (local_id task))
         (default (title task) (p_title updates))
         (or_else (p_description updates) (description task))
         (or_else (p_assigned_to updates) (assigned_to task))
         (default (status task) (p_status updates))
         (or_else (p_is_deleted updates) (is_deleted task))
         (or_else (p_created_at updates) (created_at task))
         (or_else (p_updated_at updates) (updated_at task))
         (or_else (p_sync_status updates) (sync_status task)).

(** [markForOfflineDelete] of [components/TaskItem.tsx], lines 49-56, for
    the [task] the item shows; [now] is its own reading of the clock. *)
Definition markForOfflineDelete (now : string) (r : Reads) (task : Task) (st : Store)
  : Result Store :=
  if truthy (id task) then
    let updatedTask :=
      set_updated_at (Some now)
        (set_sync_status (Some pending_delete) (set_is_deleted (Some true) task)) in
    result_store (saveTask r updatedTask st)
  else if truthy (local_id task) then Ok (deleteTask (default "" (local_id task)) st)
  else Ok st.

(** [saveUpdateOffline] of [components/TaskItem.tsx], lines 81-88. *)
Definition saveUpdateOffline (r : Reads) (task : Task) (updates : PartialTask)
    (st : Store) : Result Store :=
  let updatedTask :=
    set_sync_status
      (Some (if truthy (id task) then pending_update else pending_create))
      (spread_partial task updates) in
  result_store (saveTask r updatedTask st).

(** The record [saveOffline] of [components/TaskForm.tsx] builds from the
    validated form; [r0] is what the component reads from the clock and the
    random generator. *)
Definition localTask (r0 : Reads) (taskData : CreateTaskPayload) : Task :=
  mkTask None (Some ("local_" ++ date_now r0 ++ "_" ++ random_suffix r0))
         (c_title taskData) (Some (c_description taskData))
         (Some (c_assigned_to taskData)) (c_status taskData) (Some false)
         (Some (iso_first r0)) (Some (iso_now r0)) (Some pending_create).

(** [saveOffline] *)
Definition saveOffline (r0 r : Reads) (taskData : CreateTaskPayload) (st : Store)
  : Result (string * Store) :=
  saveTask r (localTask r0 taskData) st.

(** A [local_id] of white space only: the UTF-8 bytes of U+00A0 (no-break
    space) followed by those of U+3000 (ideographic space). *)
Definition white_space_key : string :=
  String (ascii_of_nat 194) (String (ascii_of_nat 160)
    (String (ascii_of_nat 227) (String (ascii_of_nat 128)
       (String (ascii_of_nat 128) EmptyString)))).
(** * Properties *)



(** ** The unique index *)

Lemma truthy_Some (o : option string) :
  truthy o = true ↔ ∃ s, o = Some s ∧ s ≠ "".
Proof.
  destruct o as [s|]; simpl.
  - rewrite negb_true_iff. split.
    + intros H. exists s. split; [done|]. intros ->. by rewrite String.eqb_refl in H.
    + intros (s' & [= <-] & Hne). by apply String.eqb_neq.
  - split; [done|]. by intros (s & ? & _).
Qed.

Lemma id_holders_lookup s (st : Store) k t :
  id_holders s st !! k = Some t ↔ st !! k = Some t ∧ id t = Some s.
Proof. unfold id_holders. by rewrite map_lookup_filter_Some. Qed.

Lemma holders_all_at s (st : Store) k :
  map_Forall (λ k' _, k' = k) (id_holders s st) ↔
  ∀ k' t', st !! k' = Some t' → id t' = Some s → k' = k.
Proof.
  unfold map_Forall. split.
  - intros H k' t' Hk Hid. apply (H k' t'). by apply id_holders_lookup.
  - intros H k' t' [Hk Hid]%id_holders_lookup. eauto.
Qed.

Lemma wf_store_lookup (st : Store) :
  wf_store st ↔
  ∀ k t, st !! k = Some t →
    local_id t = Some k ∧ k ≠ "" ∧
    ∀ s k' t', id t = Some s → st !! k' = Some t' → id t' = Some s → k' = k.
Proof.
  unfold wf_store, map_Forall, wf_record. split.
  - intros H k t Hk. destruct (H k t Hk) as (Hl & Hne & Hu). repeat split; [done..|].
    intros s k' t' Hid. rewrite Hid in Hu. by apply holders_all_at.
  - intros H k t Hk. destruct (H k t Hk) as (Hl & Hne & Hu). repeat split; [done..|].
    destruct (id t) as [s|] eqn:Hid; [|done]. apply holders_all_at. eauto.
Qed.

Lemma wf_store_empty : wf_store ∅.
Proof. apply map_Forall_empty. Qed.

Lemma wf_store_key (st : Store) k t :
  wf_store st → st !! k = Some t → local_id t = Some k ∧ k ≠ "".
Proof. rewrite wf_store_lookup. intros H Hk. destruct (H k t Hk) as (? & ? & _). done. Qed.

Lemma wf_store_unique (st : Store) k1 k2 t1 t2 s :
  wf_store st → st !! k1 = Some t1 → st !! k2 = Some t2 →
  id t1 = Some s → id t2 = Some s → k1 = k2.
Proof.
  rewrite wf_store_lookup. intros H H1 H2 Hi1 Hi2.
  destruct (H k2 t2 H2) as (_ & _ & Hu). eauto.
Qed.

(** The index finds the record that has the server [id]. *)
Lemma getFromIndex_id_Some (st : Store) s k t :
  wf_store st → st !! k = Some t → id t = Some s →
  getFromIndex_id s st = Some t.
Proof.
  intros Hwf Hk Hid. unfold getFromIndex_id.
  assert (id_holders s st = {[k := t]}) as ->.
  { apply map_eq. intros k'. destruct (decide (k' = k)) as [->|Hne].
    - rewrite lookup_singleton_eq. by apply id_holders_lookup.
    - rewrite lookup_singleton_ne by done.
      destruct (id_holders s st !! k') as [t'|] eqn:E; [|done].
      apply id_holders_lookup in E as [Hk' Hid'].
      destruct Hne. eapply wf_store_unique; eauto. }
  by rewrite map_to_list_singleton.
Qed.

Lemma getFromIndex_id_inv (st : Store) s e :
  getFromIndex_id s st = Some e → ∃ k, st !! k = Some e ∧ id e = Some s.
Proof.
  unfold getFromIndex_id. intros H.
  destruct (map_to_list (id_holders s st)) as [|[k t] l] eqn:E; [done|].
  simpl in H. injection H as <-. exists k.
  apply id_holders_lookup. apply elem_of_map_to_list. rewrite E. left.
Qed.

Lemma getFromIndex_id_None (st : Store) s :
  getFromIndex_id s st = None ↔ ∀ k t, st !! k = Some t → id t ≠ Some s.
Proof.
  unfold getFromIndex_id. split.
  - intros H k t Hk Hid.
    assert (id_holders s st !! k = Some t) as Hh by by apply id_holders_lookup.
    apply elem_of_map_to_list in Hh.
    destruct (map_to_list (id_holders s st)); [by apply elem_of_nil in Hh | done].
  - intros H. destruct (map_to_list (id_holders s st)) as [|[k t] l] eqn:E; [done|].
    assert ((k, t) ∈ map_to_list (id_holders s st)) as Hin by (rewrite E; left).
    apply elem_of_map_to_list, id_holders_lookup in Hin as [Hk Hid].
    by destruct (H k t Hk).
Qed.

(** ** [put] and [delete] *)

Lemma put_Ok (t : Task) (st st' : Store) :
  put t st = Ok st' ↔
  ∃ k, local_id t = Some k ∧ st' = <[k := t]> st ∧
       ∀ s k' t', id t = Some s → st !! k' = Some t' → id t' = Some s → k' = k.
Proof.
  unfold put. destruct (local_id t) as [k|]; [|split; [done | by intros (? & ? & _)]].
  destruct (id t) as [s|].
  - case_bool_decide as Hu; rewrite holders_all_at in Hu.
    + split.
      * intros [= <-]. exists k. split_and!; [done..|]. intros s' k' t' [= <-]. eauto.
      * intros (k0 & [= <-] & -> & _). done.
    + split; [done|]. intros (k0 & [= <-] & _ & Hu'). destruct Hu. eauto.
  - split.
    + intros [= <-]. exists k. split_and!; done.
    + intros (k0 & [= <-] & -> & _). done.
Qed.

Lemma put_wf (t : Task) (st st' : Store) :
  wf_store st → put t st = Ok st' → local_id t ≠ Some "" → wf_store st'.
Proof.
  intros Hwf (k & Hl & -> & Hu)%put_Ok Hne. apply wf_store_lookup.
  intros k1 t1 [[<- <-]|[Hk1 H1]]%lookup_insert_Some.
  - split_and!; [done | congruence |].
    intros s k' t' Hid [[<- <-]|[Hk' H']]%lookup_insert_Some Hid'; [done|]. eauto.
  - destruct (wf_store_key _ _ _ Hwf H1) as [Hl1 Hne1]. split_and!; [done..|].
    intros s k' t' Hid [[<- <-]|[Hk' H']]%lookup_insert_Some Hid'.
    + symmetry. eauto.
    + eapply wf_store_unique; eauto.
Qed.

Lemma delete_wf (k : string) (st : Store) : wf_store st → wf_store (delete k st).
Proof.
  rewrite !wf_store_lookup. intros H k1 t1 [Hne H1]%lookup_delete_Some.
  destruct (H k1 t1 H1) as (? & ? & Hu). split_and!; [done..|].
  intros s k' t' Hid [_ H']%lookup_delete_Some Hid'. eauto.
Qed.

(** ** What the steps of [saveTask] and [bulkSaveTasks] leave alone *)

Lemma save_assign_local_id_id r t : id (save_assign_local_id r t) = id t.
Proof. unfold save_assign_local_id. crush_ifs. Qed.
Lemma save_assign_local_id_domain r t : domain (save_assign_local_id r t) = domain t.
Proof. unfold save_assign_local_id. crush_ifs. Qed.
Lemma save_assign_local_id_sync r t :
  sync_status (save_assign_local_id r t) = sync_status t.
Proof. unfold save_assign_local_id. crush_ifs. Qed.

Lemma consolidate_id st t : id (consolidate st t) = id t.
Proof. unfold consolidate. crush_ifs. Qed.
Lemma consolidate_domain st t : domain (consolidate st t) = domain t.
Proof. unfold consolidate. crush_ifs. Qed.
Lemma consolidate_sync st t : sync_status (consolidate st t) = sync_status t.
Proof. unfold consolidate. crush_ifs. Qed.

Lemma save_stamp_id r t : id (save_stamp r t) = id t.
Proof. unfold save_stamp. crush_ifs. Qed.
Lemma save_stamp_local_id r t : local_id (save_stamp r t) = local_id t.
Proof. unfold save_stamp. crush_ifs. Qed.
Lemma save_stamp_domain r t : domain (save_stamp r t) = domain t.
Proof. unfold save_stamp. crush_ifs. Qed.

Lemma bulk_assign_local_id_id r t : id (bulk_assign_local_id r t) = id t.
Proof. unfold bulk_assign_local_id. crush_ifs. Qed.
Lemma bulk_stamp_id r t : id (bulk_stamp r t) = id t.
Proof. unfold bulk_stamp. crush_ifs. Qed.
Lemma bulk_stamp_local_id r t : local_id (bulk_stamp r t) = local_id t.
Proof. unfold bulk_stamp. crush_ifs. Qed.
Lemma bulk_stamp_domain r t : domain (bulk_stamp r t) = domain t.
Proof. unfold bulk_stamp. crush_ifs. Qed.

(** The [local_id] [saveTask] settles on before consolidation is never blank. *)
Lemma save_assign_local_id_truthy r t :
  truthy (local_id (save_assign_local_id r t)) = true.
Proof.
  unfold save_assign_local_id.
  destruct (negb (truthy (local_id t)) || blank (default "" (local_id t))) eqn:E; [done|].
  apply orb_false_iff in E as [E _]. by apply negb_false_iff in E.
Qed.

Lemma bulk_assign_local_id_truthy r t :
  truthy (local_id (bulk_assign_local_id r t)) = true.
Proof.
  unfold bulk_assign_local_id.
  destruct (truthy (local_id t)) eqn:E; simpl; [done|].
  unfold js_or. destruct (truthy (id t)) eqn:E'; done.
Qed.

(** ** Consolidation *)

(** After consolidation the record is aimed at the key of the holder of its
    server [id], if there is one. *)
Lemma consolidate_holder (st : Store) (t : Task) s k e :
  wf_store st → id t = Some s → s ≠ "" → st !! k = Some e → id e = Some s →
  local_id (consolidate st t) = Some k.
Proof.
  intros Hwf Hid Hs Hk He. unfold consolidate.
  assert (truthy (id t) = true) as -> by (apply truthy_Some; eauto).
  rewrite Hid. simpl. rewrite (getFromIndex_id_Some st s k e) by done.
  destruct (wf_store_key _ _ _ Hwf Hk) as [Hl Hne]. rewrite Hl.
  assert (truthy (Some k) = true) as -> by (apply truthy_Some; eauto).
  simpl. case_bool_decide as Hd; [done | by symmetry].
Qed.

Lemma consolidate_truthy (st : Store) (t : Task) :
  truthy (local_id t) = true → truthy (local_id (consolidate st t)) = true.
Proof.
  intros Ht. unfold consolidate. crush_ifs.
  by apply andb_true_iff in H1 as [? _].
Qed.

(** A consolidated record with an absent or non-empty server [id] can always
    be stored: the unique index has nothing against it. *)
Lemma put_consolidated (st : Store) (t t' : Task) :
  wf_store st → id t ≠ Some "" → truthy (local_id t) = true →
  id t' = id t → local_id t' = local_id (consolidate st t) →
  ∃ k, local_id t' = Some k ∧ k ≠ "" ∧ put t' st = Ok (<[k := t']> st).
Proof.
  intros Hwf Hid Ht Hid' Hl'.
  pose proof (consolidate_truthy st t Ht) as Hc.
  apply truthy_Some in Hc as (k & Hk & Hne). exists k.
  rewrite Hl', Hk. split_and!; [done..|].
  apply put_Ok. exists k. rewrite Hl', Hk. split_and!; [done..|].
  intros s k' e Hs Hk' He. rewrite Hid' in Hs.
  assert (s ≠ "") by congruence.
  pose proof (consolidate_holder st t s k' e Hwf Hs H Hk' He). congruence.
Qed.

(** ** [saveTask] *)

Lemma save_record_id r t st : id (save_record r t st) = id t.
Proof.
  unfold save_record.
  by rewrite save_stamp_id, consolidate_id, save_assign_local_id_id.
Qed.

Lemma save_record_domain r t st : domain (save_record r t st) = domain t.
Proof.
  unfold save_record.
  by rewrite save_stamp_domain, consolidate_domain, save_assign_local_id_domain.
Qed.

Lemma save_record_local_id r t st :
  local_id (save_record r t st) = local_id (consolidate st (save_assign_local_id r t)).
Proof. unfold save_record. by rewrite save_stamp_local_id. Qed.

Lemma save_record_truthy r t (st : Store) :
  truthy (local_id (save_record r t st)) = true.
Proof.
  rewrite save_record_local_id.
  apply consolidate_truthy, save_assign_local_id_truthy.
Qed.

Lemma saveTask_Ok r t (st st' : Store) k :
  saveTask r t st = Ok (k, st') ↔
  local_id (save_record r t st) = Some k ∧ put (save_record r t st) st = Ok st'.
Proof.
  unfold saveTask. destruct (put (save_record r t st) st) as [st1|e] eqn:E.
  - pose proof E as (k1 & Hl & _)%put_Ok. rewrite Hl. simpl. split.
    + by intros [= <- <-].
    + by intros [[= <-] [= <-]].
  - split; [done | by intros [_ ?]].
Qed.

(** [saveTask] returns whenever the server [id] is absent or not empty. *)
Lemma saveTask_total r t (st : Store) :
  wf_store st → id t ≠ Some "" →
  ∃ k, k ≠ "" ∧ local_id (save_record r t st) = Some k ∧
       saveTask r t st = Ok (k, <[k := save_record r t st]> st).
Proof.
  intros Hwf Hid.
  destruct (put_consolidated st (save_assign_local_id r t) (save_record r t st))
    as (k & Hk & Hne & Hput); auto.
  - by rewrite save_assign_local_id_id.
  - apply save_assign_local_id_truthy.
  - rewrite save_record_id. by rewrite save_assign_local_id_id.
  - apply save_record_local_id.
  - exists k. split_and!; [done..|]. by apply saveTask_Ok.
Qed.

Lemma saveTask_wf r t (st st' : Store) k :
  wf_store st → saveTask r t st = Ok (k, st') → wf_store st'.
Proof.
  intros Hwf [Hl Hput]%saveTask_Ok. eapply put_wf; [done..|].
  pose proof (save_record_truthy r t st) as Ht.
  intros Heq. by rewrite Heq in Ht.
Qed.

Lemma run_saves_wf calls (st : Store) : wf_store st → wf_store (run_saves calls st).
Proof.
  revert st. induction calls as [|[r t] rest IH]; intros st Hwf; simpl; [done|].
  destruct (saveTask r t st) as [[k st']|e] eqn:E; [|by apply IH].
  apply IH. by eapply saveTask_wf.
Qed.

(** ** [updateTaskAfterSync] *)

Lemma merge_with_server_sync now k base over :
  sync_status (merge_with_server now k base over) = Some synced.
Proof. unfold merge_with_server. crush_ifs. Qed.

Lemma merge_with_server_local_id now k base over :
  local_id (merge_with_server now k base over) = Some k.
Proof. unfold merge_with_server. crush_ifs. Qed.

Lemma merge_with_server_id now k base over :
  id (merge_with_server now k base over) = id (spread base over).
Proof. unfold merge_with_server. crush_ifs. Qed.

Lemma merge_with_server_domain now k base over :
  domain (merge_with_server now k base over) = domain (spread base over).
Proof. unfold merge_with_server. crush_ifs. Qed.

Lemma spread_id_Some base over s : id over = Some s → id (spread base over) = Some s.
Proof. intros H. destruct base; simpl; by rewrite H. Qed.

Lemma conflicting_local_id_Some (st : Store) k (serverTask : Task) kc :
  conflicting_local_id k serverTask st = Some kc →
  kc ≠ k ∧ kc ≠ "" ∧ ∃ s c, id serverTask = Some s ∧ s ≠ "" ∧
    getFromIndex_id s st = Some c ∧ local_id c = Some kc.
Proof.
  unfold conflicting_local_id.
  destruct (truthy (id serverTask)) eqn:Ht; [|done].
  apply truthy_Some in Ht as (s & Hs & Hne). rewrite Hs. simpl.
  destruct (getFromIndex_id s st) as [c|] eqn:Hc; [|done].
  destruct (truthy (local_id c)) eqn:Htc; [|done]. simpl.
  case_bool_decide as Hd; [|done]. intros Hl.
  apply truthy_Some in Htc as (k' & Hk' & Hne').
  assert (k' = kc) as -> by congruence.
  split_and!; [congruence | done |]. exists s, c. by rewrite Hk'.
Qed.





(** C2.  In a store that satisfies the index, [saveTask] of a task whose
    server id [s] is already held by a record under [ke] stores the task under
    [ke], whatever [local_id] the input had, and returns [ke]; and after any
    sequence of [saveTask] calls no two records share a server id. *)
Theorem saveTask_one_record_per_server_id (st : Store) (calls : list (Reads * Task)) :
  wf_store st →
  (∀ r t s ke e,
     id t = Some s → s ≠ "" → st !! ke = Some e → id e = Some s →
     saveTask r t st = Ok (ke, <[ke := save_record r t st]> st) ∧
     local_id (save_record r t st) = Some ke ∧
     id (save_record r t st) = Some s) ∧
  unique_server_ids (run_saves calls st).
Proof.
  intros Hwf. split.
  - intros r t s ke e Hs Hne Hke He.
    destruct (saveTask_total r t st Hwf) as (k & Hk & Hl & Hsave); [congruence|].
    assert (k = ke) as ->.
    { rewrite save_record_local_id in Hl.
      rewrite (consolidate_holder st (save_assign_local_id r t) s ke e) in Hl; try done.
      - congruence.
      - by rewrite save_assign_local_id_id. }
    split_and!; [done..|]. by rewrite save_record_id.
  - intros k1 k2 t1 t2 s H1 H2 Hi1 Hi2.
    eapply wf_store_unique; [by apply run_saves_wf|..]; eauto.
Qed.

Lemma saveTask_one_record_per_server_id_witness :
  (saveTask Scenario.the_reads Scenario.bread_from_server Scenario.store_B
     = Ok ("local_B",
           <["local_B" := save_record Scenario.the_reads Scenario.bread_from_server
                            Scenario.store_B]> Scenario.store_B) ∧
   local_id (save_record Scenario.the_reads Scenario.bread_from_server Scenario.store_B)
     = Some "local_B" ∧
   id (save_record Scenario.the_reads Scenario.bread_from_server Scenario.store_B)
     = Some "srv-1") ∧
  unique_server_ids
    (run_saves [(Scenario.the_reads, Scenario.bread_row);
                (Scenario.the_reads, Scenario.bread_from_server)] Scenario.store_B).
Proof.
  assert (wf_store Scenario.store_B) as Hwf.
  { apply (bool_decide_unpack _). vm_compute. exact I. }
  destruct (saveTask_one_record_per_server_id Scenario.store_B
              [(Scenario.the_reads, Scenario.bread_row);
               (Scenario.the_reads, Scenario.bread_from_server)] Hwf) as [Hcons Huniq].
  split; [|exact Huniq].
  apply (Hcons Scenario.the_reads Scenario.bread_from_server "srv-1" "local_B"
           Scenario.bread_edited).
  - reflexivity.
  - discriminate.
  - vm_compute. reflexivity.
  - reflexivity.
Defined.

(** ** Round trip *)

(** C9.  Whenever [saveTask t] returns a [local_id], [getTaskByLocalId] on it
    finds a record with the domain fields of [t]; and [saveTask] does return
    in every store that satisfies the index when the server id of [t] is
    absent or not empty. *)
Theorem saveTask_then_getTaskByLocalId (r : Reads) (t : Task) (st : Store) :
  (∀ k st', saveTask r t st = Ok (k, st') →
     ∃ t', getTaskByLocalId k st' = Some t' ∧ domain t' = domain t) ∧
  (wf_store st → id t ≠ Some "" → ∃ k st', saveTask r t st = Ok (k, st')).
Proof.
  split.
  - intros k st' [Hl (k' & Hl' & -> & _)%put_Ok]%saveTask_Ok.
    assert (k' = k) as -> by congruence.
    exists (save_record r t st). split; [|apply save_record_domain].
    unfold getTaskByLocalId. rewrite <- Hl, save_record_truthy. simpl.
    apply lookup_insert_eq.
  - intros Hwf Hid. destruct (saveTask_total r t st Hwf Hid) as (k & _ & _ & H).
    eauto.
Qed.

Lemma saveTask_then_getTaskByLocalId_witness :
  (∃ t', getTaskByLocalId "local_1"
           (<["local_1" := save_record Scenario.the_reads Scenario.milk ∅]> ∅) = Some t' ∧
         domain t' = domain Scenario.milk) ∧
  (∃ k st', saveTask Scenario.the_reads Scenario.milk ∅ = Ok (k, st')).
Proof.
  destruct (saveTask_then_getTaskByLocalId Scenario.the_reads Scenario.milk ∅)
    as [Hget Hret].
  split.
  - apply Hget. vm_compute. reflexivity.
  - apply Hret; [apply wf_store_empty | discriminate].
Defined.

(** ** [bulkSaveTasks] against [saveTask] *)

(** C3, as stated, fails: [saveTask] always refreshes [updated_at],
    [bulkSaveTasks] keeps the one the record carries. *)
Lemma bulkSaveTasks_is_not_saveTask :
  ¬ (∀ (rd : nat → Reads) (t : Task) (st : Store),
       bulkSaveTasks rd [t] st = result_store (saveTask (rd 0) t st)).
Proof.
  intros H. specialize (H (λ _, Scenario.the_reads) Scenario.bread_known ∅).
  apply (f_equal (λ x, match x with
                       | Ok st => (st !! "local_B") ≫= updated_at
                       | Err _ => None
                       end)) in H.
  vm_compute in H. discriminate H.
Qed.

Lemma bulk_record_save_record (r : Reads) (t : Task) (st : Store) :
  truthy (id t) = true →
  truthy (local_id t) = true → blank (default "" (local_id t)) = false →
  bulk_record r t st = save_record (with_iso_now (kept_updated_at t r) r) t st.
Proof.
  intros Hid Hl Hb. unfold bulk_record, save_record.
  unfold bulk_assign_local_id, save_assign_local_id. rewrite Hl, Hb. simpl.
  assert (id (consolidate st t) = id t) as Hci by apply consolidate_id.
  assert (updated_at (consolidate st t) = updated_at t) as Hcu.
  { unfold consolidate. crush_ifs. }
  generalize dependent (consolidate st t). intros c Hci Hcu.
  unfold bulk_stamp, save_stamp, kept_updated_at.
  destruct c as [ci cl ct cd ca cs cdel cc cu csy]. simpl in *. subst ci cu.
  destruct (id t) as [[|x y]|]; try discriminate Hid.
  destruct (updated_at t) as [[|a u]|], cc as [[|b c]|], csy; reflexivity.
Qed.

(** C3, amended.  For a task with a non-empty server id and a non-blank
    [local_id], [bulkSaveTasks [t]] leaves the store [saveTask t] would leave
    if the clock showed the [updated_at] of [t] (the clock itself when [t] has
    none): same consolidation, but [updated_at] is kept, not refreshed. *)
Theorem bulkSaveTasks_single (rd : nat → Reads) (t : Task) (st : Store) :
  truthy (id t) = true →
  truthy (local_id t) = true → blank (default "" (local_id t)) = false →
  bulkSaveTasks rd [t] st
  = result_store (saveTask (with_iso_now (kept_updated_at t (rd 0)) (rd 0)) t st).
Proof.
  intros Hid Hl Hb. unfold bulkSaveTasks, saveTask. simpl.
  rewrite (bulk_record_save_record (rd 0) t st Hid Hl Hb).
  by destruct (put _ st).
Qed.

Lemma bulkSaveTasks_single_witness :
  bulkSaveTasks (λ _, Scenario.the_reads) [Scenario.bread_known] Scenario.store_B
  = result_store
      (saveTask (with_iso_now (kept_updated_at Scenario.bread_known Scenario.the_reads)
                   Scenario.the_reads)
         Scenario.bread_known Scenario.store_B).
Proof.
  apply (bulkSaveTasks_single (λ _, Scenario.the_reads) Scenario.bread_known
           Scenario.store_B); reflexivity.
Defined.

(** ** A [synced] record has a server id *)

(** C4, as stated, fails: [bulkSaveTasks] stores a task that has neither a
    server id nor a status as [synced]. *)
Lemma bulkSaveTasks_synced_without_id :
  ¬ synced_has_id (run_ops [OpBulkSave (λ _, Scenario.the_reads) [Scenario.draft]] ∅).
Proof.
  intros H. apply (bool_decide_pack _) in H. vm_compute in H. exact H.
Qed.

(** So does [updateLocalTaskStatus], asked to mark a never-sent record. *)
Lemma updateLocalTaskStatus_synced_without_id :
  ¬ synced_has_id
      (run_ops [OpSave Scenario.the_reads Scenario.milk;
                OpSetStatus "2026-01-01T10:00:01.000Z" "local_1" synced None] ∅).
Proof.
  intros H. apply (bool_decide_pack _) in H. vm_compute in H. exact H.
Qed.

Lemma put_synced_has_id (t : Task) (st st' : Store) :
  synced_has_id st → put t st = Ok st' →
  (sync_status t = Some synced → is_Some (id t)) → synced_has_id st'.
Proof.
  intros Hinv (k & _ & -> & _)%put_Ok Ht. by apply map_Forall_insert_2.
Qed.

Lemma save_stamp_synced r t :
  sync_status (save_stamp r t) = Some synced → truthy (id t) = true.
Proof.
  unfold save_stamp.
  destruct (truthy (id t)) eqn:Hid; [done|]. simpl.
  case_bool_decide as Hs; simpl; crush_ifs.
  all: try (case_bool_decide; simpl in *; congruence).
Qed.

Lemma bulkSaveTasks_from_synced_has_id rd i ts (st st' : Store) :
  synced_has_id st → Forall (λ t, is_Some (id t)) ts →
  bulkSaveTasks_from rd i ts st = Ok st' → synced_has_id st'.
Proof.
  revert i st. induction ts as [|t ts IH]; intros i st Hinv Hts; simpl.
  - by intros [= <-].
  - apply Forall_cons in Hts as [Ht Hts].
    destruct (put (bulk_record (rd i) t st) st) as [st1|e] eqn:E; [|done].
    apply IH; [|done]. eapply put_synced_has_id; [done..|].
    intros _. unfold bulk_record.
    by rewrite bulk_stamp_id, consolidate_id, bulk_assign_local_id_id.
Qed.

Lemma apply_op_synced_has_id (op : Op) (st : Store) :
  synced_has_id st → carries_server_id op → synced_has_id (apply_op op st).
Proof.
  intros Hinv Hop. destruct op as [r t|rd ts|now k serverTask|now k s sd|k]; simpl.
  - destruct (saveTask r t st) as [[k st']|e] eqn:E; simpl; [|done].
    apply saveTask_Ok in E as [_ Hput]. eapply put_synced_has_id; [done..|].
    intros Hs. unfold save_record in *. apply save_stamp_synced in Hs.
    rewrite save_stamp_id.
    apply truthy_Some in Hs as (s & -> & _). eauto.
  - destruct (bulkSaveTasks rd ts st) as [st'|e] eqn:E; [|done].
    by eapply bulkSaveTasks_from_synced_has_id.
  - destruct (updateTaskAfterSync now k serverTask st) as [st'|e] eqn:E; [|done].
    simpl in Hop. destruct Hop as [s Hs].
    unfold updateTaskAfterSync in E.
    destruct (conflicting_local_id k serverTask st) as [kc|].
    + destruct (put _ st) as [st1|e1] eqn:Hput; [|done].
      assert (synced_has_id st1) as H1.
      { eapply put_synced_has_id; [done..|]. intros _.
        change (is_Some (id (merge_with_server now k (st !! k) serverTask))).
        rewrite merge_with_server_id, (spread_id_Some _ _ s Hs). eauto. }
      destruct (_ && _); injection E as <-; [|done].
      by apply map_Forall_delete.
    + eapply put_synced_has_id; [done..|]. intros _.
      rewrite merge_with_server_id, (spread_id_Some _ _ s Hs). eauto.
  - destruct (updateLocalTaskStatus now k s sd st) as [st'|e] eqn:E; [|done].
    unfold updateLocalTaskStatus in E.
    destruct (st !! k) as [task|] eqn:Hk; [|by injection E as <-].
    eapply put_synced_has_id; [done..|].
    simpl in Hop. destruct Hop as [Hne|Hsd].
    + intros Hs. destruct Hne.
      destruct (truthy (sd ≫= sd_id)); simpl in Hs; congruence.
    + intros _. rewrite Hsd. simpl.
      apply truthy_Some in Hsd as (i & -> & _). eauto.
  - unfold deleteTask. by apply map_Forall_delete.
Qed.

(** C4, amended.  From a store in which every [synced] record has a server
    id, any sequence of store operations keeps it so, provided the records
    given to [bulkSaveTasks] and [updateTaskAfterSync] carry a server id and
    [updateLocalTaskStatus] sets [synced] only together with one; [saveTask]
    and [deleteTask] need no proviso. *)
Theorem synced_has_id_preserved (ops : list Op) (st : Store) :
  synced_has_id st → Forall carries_server_id ops → synced_has_id (run_ops ops st).
Proof.
  revert st. induction ops as [|op ops IH]; intros st Hinv Hops; simpl; [done|].
  apply Forall_cons in Hops as [Hop Hops].
  apply IH; [|done]. by apply apply_op_synced_has_id.
Qed.

Lemma synced_has_id_preserved_witness :
  synced_has_id
    (run_ops [OpSave Scenario.the_reads Scenario.milk;
              OpSave Scenario.the_reads Scenario.draft;
              OpReconcile "2026-01-01T10:00:01.000Z" "local_1" Scenario.bread_from_server;
              OpBulkSave (λ _, Scenario.the_reads) [Scenario.bread_row];
              OpSetStatus "2026-01-01T10:00:02.000Z" "local_1" pending_update None;
              OpDelete "local_1"] ∅).
Proof.
  apply synced_has_id_preserved.
  - apply (bool_decide_unpack _). vm_compute. exact I.
  - apply (bool_decide_unpack _). vm_compute. exact I.
Defined.

(** ** The store operations maintain the index *)

Lemma bulk_record_truthy r t (st : Store) :
  truthy (local_id (bulk_record r t st)) = true.
Proof.
  unfold bulk_record. rewrite bulk_stamp_local_id.
  apply consolidate_truthy, bulk_assign_local_id_truthy.
Qed.

Lemma bulkSaveTasks_from_wf rd i ts (st st' : Store) :
  wf_store st → bulkSaveTasks_from rd i ts st = Ok st' → wf_store st'.
Proof.
  revert i st. induction ts as [|t ts IH]; intros i st Hwf; simpl.
  - by intros [= <-].
  - destruct (put (bulk_record (rd i) t st) st) as [st1|e] eqn:E; [|done].
    apply IH. eapply put_wf; [done..|].
    pose proof (bulk_record_truthy (rd i) t st) as Ht.
    intros Heq. by rewrite Heq in Ht.
Qed.

Lemma updateTaskAfterSync_wf now k serverTask (st st' : Store) :
  wf_store st → k ≠ "" →
  updateTaskAfterSync now k serverTask st = Ok st' → wf_store st'.
Proof.
  intros Hwf Hk. unfold updateTaskAfterSync.
  destruct (conflicting_local_id k serverTask st) as [kc|] eqn:Hc.
  - apply conflicting_local_id_Some in Hc as (_ & Hkc & _).
    destruct (put _ st) as [st1|e] eqn:Hput; [|done].
    assert (wf_store st1) as H1.
    { eapply put_wf; [done..|]. simpl. congruence. }
    destruct (_ && _); intros [= <-]; [|done]. by apply delete_wf.
  - intros Hput. eapply put_wf; [done..|].
    rewrite merge_with_server_local_id. congruence.
Qed.

Lemma updateLocalTaskStatus_wf now k s sd (st st' : Store) :
  wf_store st → updateLocalTaskStatus now k s sd st = Ok st' → wf_store st'.
Proof.
  intros Hwf. unfold updateLocalTaskStatus.
  destruct (st !! k) as [task|] eqn:Hk; [|by intros [= <-]].
  destruct (wf_store_key _ _ _ Hwf Hk) as [_ Hne].
  intros Hput. eapply put_wf; [done..|].
  destruct (truthy (sd ≫= sd_id)); simpl; congruence.
Qed.

Lemma apply_op_wf (op : Op) (st : Store) :
  wf_store st → names_a_key op → wf_store (apply_op op st).
Proof.
  intros Hwf Hop. destruct op as [r t|rd ts|now k serverTask|now k s sd|k]; simpl.
  - destruct (saveTask r t st) as [[k st']|e] eqn:E; simpl; [|done].
    by eapply saveTask_wf.
  - destruct (bulkSaveTasks rd ts st) as [st'|e] eqn:E; [|done].
    by eapply bulkSaveTasks_from_wf.
  - destruct (updateTaskAfterSync now k serverTask st) as [st'|e] eqn:E; [|done].
    by eapply updateTaskAfterSync_wf.
  - destruct (updateLocalTaskStatus now k s sd st) as [st'|e] eqn:E; [|done].
    by eapply updateLocalTaskStatus_wf.
  - by apply delete_wf.
Qed.

(** Every store the operations build from the empty one satisfies the
    index. *)
Lemma run_ops_wf (ops : list Op) (st : Store) :
  wf_store st → Forall names_a_key ops → wf_store (run_ops ops st).
Proof.
  revert st. induction ops as [|op ops IH]; intros st Hwf Hops; simpl; [done|].
  apply Forall_cons in Hops as [Hop Hops]. apply IH; [|done].
  by apply apply_op_wf.
Qed.

(** ** The sync engine *)

Section EngineFacts.
Context {Remote : Type}.
Variable sb : Supabase Remote.
Variable env : Oracles.
Implicit Types w : World (Remote := Remote).




Lemma pull_merge_and_finish_returned fetched w r w' :
  pull_merge_and_finish env fetched w = (Returned r, w') →
  isSyncing w' = false ∧ r = mkSyncResult true (tasks fetched) None.
Proof.
  unfold pull_merge_and_finish, bind.
  destruct (match tasks fetched with
            | Some [] | None => ret tt
            | Some l => bulkSaveTasks_io env l
            end w) as [[[]|e] w1]; [|done].
  unfold read_env, tick, bind, ret, setLastSyncTimestamp, get_world, bind, modify.
  simpl. destruct (localStorage w1); simpl; by intros [= <- <-].
Qed.

Lemma pull_phase_returned force w r w' :
  pull_phase sb env force w = (Returned r, w') → isSyncing w' = false.
Proof.
  unfold pull_phase, bind.
  destruct (pull_fetch sb env force w) as [[fetched|e] w1]; [|done].
  by intros [? _]%pull_merge_and_finish_returned.
Qed.

(** C5.  [synchronize] always returns a result, never throws; and a call that
    begins a pass (connectivity up, no pass running) ends with [isSyncing]
    false. *)
Theorem synchronize_releases_flag (forceFullSync : bool) w :
  ∃ r w',
    synchronize sb env forceFullSync w = (Returned r, w') ∧
    (is_offline w = false → isSyncing w = false → isSyncing w' = false).
Proof.
  unfold synchronize, bind, get_world.
  destruct (is_offline w) eqn:Hoff; [unfold ret; eauto|].
  destruct (isSyncing w) eqn:Hs; [unfold ret; eauto|].
  unfold modify, try_catch.
  destruct (push_phase sb env (set_isSyncing true w)) as [[[]|e] w1] eqn:Hpush.
  - destruct (pull_phase sb env forceFullSync w1) as [[r|e] w2] eqn:Hpull.
    + exists r, w2. split; [done|]. intros _ _. by eapply pull_phase_returned.
    + unfold on_failure, bind, modify, ret. eauto.
  - unfold on_failure, bind, modify, ret. eauto.
Qed.

(** C6, as stated, fails when connectivity is down: the first guard answers
    [Offline] before the flag is looked at. *)
Lemma synchronize_while_syncing_offline :
  ¬ (∀ (forceFullSync : bool) (w : World (Remote := Scenario.Server)),
       isSyncing w = true →
       (synchronize Scenario.supabase Scenario.fair_weather forceFullSync w).1
       = Returned busy_result).
Proof.
  intros H.
  specialize (H false (Scenario.browser Scenario.store_milk true false
                         (Scenario.server_with_bread true)) eq_refl).
  vm_compute in H. discriminate H.
Qed.

(** C6, amended.  While a pass is running, [synchronize] returns at once a
    failure ([Sync in progress], or [Offline] when connectivity is down) and
    the world is exactly as it was: store, watermark, flag, remote store, and
    no reading of the environment. *)
Theorem synchronize_while_syncing (forceFullSync : bool) w :
  isSyncing w = true →
  synchronize sb env forceFullSync w
  = (Returned (if is_offline w then offline_result else busy_result), w) ∧
  success (if is_offline w then offline_result else busy_result) = false.
Proof.
  intros Hs. unfold synchronize, bind, get_world. rewrite Hs.
  by destruct (is_offline w).
Qed.

End EngineFacts.

Lemma synchronize_releases_flag_witness :
  ∃ r w',
    synchronize Scenario.unavailable Scenario.no_network true
      (Scenario.browser Scenario.store_milk false true (Scenario.server_with_bread true))
    = (Returned r, w') ∧
    isSyncing w' = false.
Proof.
  destruct (synchronize_releases_flag Scenario.unavailable Scenario.no_network true
              (Scenario.browser Scenario.store_milk false true
                 (Scenario.server_with_bread true)))
    as (r & w' & Hrun & Hflag).
  exists r, w'. split; [exact Hrun|]. apply Hflag; reflexivity.
Defined.

Lemma synchronize_while_syncing_witness :
  synchronize Scenario.supabase Scenario.fair_weather false
    (Scenario.browser Scenario.store_milk true true (Scenario.server_with_bread true))
  = (Returned busy_result,
     Scenario.browser Scenario.store_milk true true (Scenario.server_with_bread true)) ∧
  success busy_result = false.
Proof.
  apply (synchronize_while_syncing Scenario.supabase Scenario.fair_weather false
           (Scenario.browser Scenario.store_milk true true
              (Scenario.server_with_bread true))).
  reflexivity.
Defined.

(** ** The push of one record *)

(** C7, as stated, fails: a record marked [pending_create] that has a server
    id is not sent as a create; nothing is sent for it. *)
Lemma pending_create_with_id_not_created :
  ¬ (∀ task : Task,
       sync_status task = Some pending_create →
       dispatch task = Some (CallCreate (payloadForCreate task))).
Proof.
  intros H. specialize (H Scenario.bread_mislabeled eq_refl).
  vm_compute in H. discriminate H.
Qed.

(** C7, amended.  The request is chosen by [sync_status] and by the presence
    of a server id: a create for [pending_create] without id, an update or a
    soft delete for [pending_update] or [pending_delete] with id, and no
    request at all, with a failure reported and the remote store untouched,
    in every other case.  The payload is made of the domain fields alone: it
    has no [local_id] and no [sync_status], and two tasks with the same domain
    fields, server id and status give the same request. *)
Theorem dispatch_by_sync_status_and_id (task : Task) :
  dispatch task =
    match sync_status task with
    | Some pending_create =>
        if truthy (id task) then None
        else Some (CallCreate
                     {| c_title := title task;
                        c_description := mjoin (description task);
                        c_assigned_to := mjoin (assigned_to task);
                        c_status := status task |})
    | Some pending_update =>
        if truthy (id task)
        then Some (CallUpdate (default "" (id task))
                     {| u_local_id := None;
                        u_title := Some (title task);
                        u_description := Some (mjoin (description task));
                        u_assigned_to := Some (mjoin (assigned_to task));
                        u_status := Some (status task);
                        u_is_deleted := is_deleted task;
                        u_updated_at := None;
                        u_sync_status := None |})
        else None
    | Some pending_delete =>
        if truthy (id task) then Some (CallSoftDelete (default "" (id task))) else None
    | Some synced | None => None
    end ∧
  (∀ (Remote : Type) (sb : Supabase Remote) (r : Remote),
     dispatch task = None →
     syncPendingTaskWithServer sb task r
     = (mkPush false None (Some (invalid_message task)), r)) ∧
  (∀ task' : Task,
     domain task' = domain task → id task' = id task →
     sync_status task' = sync_status task →
     dispatch task' = dispatch task).
Proof.
  split_and!.
  - unfold dispatch, payloadForCreate, payloadForUpdate, or_null.
    destruct (sync_status task) as [[]|], (truthy (id task)); reflexivity.
  - intros Remote sb r H. unfold syncPendingTaskWithServer. by rewrite H.
  - intros task' Hd Hi Hs. unfold dispatch, payloadForCreate, payloadForUpdate.
    injection Hd as Ht Hde Ha Hst Hdel. by rewrite Hi, Hs, Ht, Hde, Ha, Hst, Hdel.
Qed.

Lemma dispatch_by_sync_status_and_id_witness :
  syncPendingTaskWithServer Scenario.supabase Scenario.bread_mislabeled
    (Scenario.server_with_bread true)
  = (mkPush false None (Some (invalid_message Scenario.bread_mislabeled)),
     Scenario.server_with_bread true) ∧
  dispatch (set_local_id (Some "local_Z") Scenario.bread_edited)
  = dispatch Scenario.bread_edited.
Proof.
  destruct (dispatch_by_sync_status_and_id Scenario.bread_mislabeled) as (_ & Hnone & _).
  destruct (dispatch_by_sync_status_and_id Scenario.bread_edited) as (_ & _ & Hsame).
  split.
  - apply Hnone. reflexivity.
  - apply Hsame; reflexivity.
Defined.

(** ** What the push phase and the fetch leave alone *)

Section Frames.
Context {Remote : Type}.
Variable sb : Supabase Remote.
Variable env : Oracles.
Implicit Types w : World (Remote := Remote).

Lemma keeps_engine_state_ret {A} (a : A) :
  keeps_engine_state (Remote := Remote) (ret a).
Proof. intros w o w' [= _ <-]. done. Qed.

Lemma keeps_engine_state_throw {A} e :
  keeps_engine_state (Remote := Remote) (throw (A := A) e).
Proof. intros w o w' [= _ <-]. done. Qed.

Lemma keeps_engine_state_bind {A B} (m : M A) (k : A → M B) :
  keeps_engine_state m → (∀ a, keeps_engine_state (Remote := Remote) (k a)) →
  keeps_engine_state (bind m k).
Proof.
  intros Hm Hk w o w'. unfold bind.
  destruct (m w) as [[a|e] w1] eqn:E.
  - intros H. destruct (Hm _ _ _ E) as [<- <-]. by apply Hk in H.
  - intros [= _ <-]. by apply Hm in E.
Qed.

Lemma keeps_engine_state_try_catch {A} (m : M A) (h : Exn → M A) :
  keeps_engine_state m → (∀ e, keeps_engine_state (Remote := Remote) (h e)) →
  keeps_engine_state (try_catch m h).
Proof.
  intros Hm Hh w o w'. unfold try_catch.
  destruct (m w) as [[a|e] w1] eqn:E.
  - intros [= _ <-]. by apply Hm in E.
  - intros H. destruct (Hm _ _ _ E) as [<- <-]. by apply Hh in H.
Qed.

Lemma keeps_engine_state_tick : keeps_engine_state (Remote := Remote) tick.
Proof. intros w o w' [= _ <-]. done. Qed.

Lemma keeps_engine_state_get_world :
  keeps_engine_state (Remote := Remote) get_world.
Proof. intros w o w' [= _ <-]. done. Qed.

Lemma keeps_engine_state_getDB :
  keeps_engine_state (Remote := Remote) (getDB env).
Proof.
  apply keeps_engine_state_bind; [apply keeps_engine_state_tick|].
  intros n. destruct (storage_available env n).
  - apply keeps_engine_state_ret.
  - apply keeps_engine_state_throw.
Qed.

Lemma keeps_engine_state_read_env :
  keeps_engine_state (Remote := Remote) (read_env env).
Proof.
  apply keeps_engine_state_bind; [apply keeps_engine_state_tick|].
  intros n. apply keeps_engine_state_ret.
Qed.

Lemma keeps_engine_state_transaction {A} (f : Store → Result (A * Store)) :
  keeps_engine_state (Remote := Remote) (transaction f).
Proof.
  intros w o w'. unfold transaction.
  destruct (f (store w)) as [[a st']|e]; by intros [= _ <-].
Qed.

Lemma keeps_engine_state_call_action {A} (f : Remote → A * Remote) :
  keeps_engine_state (Remote := Remote) (call_action env f).
Proof.
  apply keeps_engine_state_bind; [apply keeps_engine_state_tick|].
  intros n. destruct (action_reachable env n).
  - intros w o w'. destruct (f (remote w)) as [a r']. by intros [= _ <-].
  - apply keeps_engine_state_throw.
Qed.


Lemma keeps_engine_state_updateTaskAfterSync_io k t :
  keeps_engine_state (Remote := Remote) (updateTaskAfterSync_io env k t).
Proof.
  apply keeps_engine_state_bind; [apply keeps_engine_state_getDB|]. intros _.
  apply keeps_engine_state_bind; [apply keeps_engine_state_read_env|]. intros r.
  apply keeps_engine_state_transaction.
Qed.

Lemma keeps_engine_state_push_one task :
  keeps_engine_state (Remote := Remote) (push_one sb env task).
Proof.
  apply keeps_engine_state_try_catch; [|intros e; apply keeps_engine_state_ret].
  apply keeps_engine_state_bind; [apply keeps_engine_state_call_action|].
  intros res. destruct (syncedTask res); [|apply keeps_engine_state_ret].
  destruct (_ && _); [|apply keeps_engine_state_ret].
  apply keeps_engine_state_updateTaskAfterSync_io.
Qed.

Lemma keeps_engine_state_push_loop l :
  keeps_engine_state (Remote := Remote) (push_loop sb env l).
Proof.
  induction l as [|task rest IH]; simpl; [apply keeps_engine_state_ret|].
  apply keeps_engine_state_bind; [apply keeps_engine_state_push_one | done].
Qed.

Lemma keeps_engine_state_push_phase :
  keeps_engine_state (Remote := Remote) (push_phase sb env).
Proof.
  apply keeps_engine_state_bind.
  - apply keeps_engine_state_bind; [apply keeps_engine_state_getDB|]. intros _.
    apply keeps_engine_state_bind; [apply keeps_engine_state_get_world|]. intros w.
    apply keeps_engine_state_ret.
  - intros l. apply keeps_engine_state_push_loop.
Qed.

Lemma keeps_engine_state_pull_fetch force :
  keeps_engine_state (Remote := Remote) (pull_fetch sb env force).
Proof.
  apply keeps_engine_state_bind; [|intros l; apply keeps_engine_state_call_action].
  destruct force; [apply keeps_engine_state_ret|].
  apply keeps_engine_state_bind; [apply keeps_engine_state_get_world|].
  intros w. destruct (localStorage w); apply keeps_engine_state_ret.
Qed.




(** C10.  In a pass that begins and whose push phase has run, when the fetch
    of the pull phase answers with an error, [synchronize] still reports
    success, with no pulled records, releases the flag, and moves the watermark
    (where [localStorage] exists) to the reading of the clock. *)
Theorem fetch_error_still_success (forceFullSync : bool) w w1 w2 (msg : string) :
  is_offline w = false → isSyncing w = false →
  push_phase sb env (set_isSyncing true w) = (Returned tt, w1) →
  pull_fetch sb env forceFullSync w1 = (Returned (mkFetch None (Some msg)), w2) →
  ∃ w3,
    synchronize sb env forceFullSync w = (Returned (mkSyncResult true None None), w3) ∧
    isSyncing w3 = false ∧
    store w3 = store w2 ∧
    (is_Some (localStorage w) →
     localStorage w3 = Some (Some (iso_now (reads env (step w2))))).
Proof.
  intros Hoff Hs Hpush Hfetch.
  destruct (keeps_engine_state_push_phase _ _ _ Hpush) as [Hls1 _].
  destruct (keeps_engine_state_pull_fetch _ _ _ _ Hfetch) as [Hls2 _].
  unfold synchronize, bind at 1, get_world. rewrite Hoff, Hs.
  unfold bind at 1, modify, try_catch, bind at 1. rewrite Hpush.
  unfold pull_phase, bind at 1. rewrite Hfetch.
  cbv [pull_merge_and_finish bind ret read_env tick setLastSyncTimestamp
         get_world modify tasks set_step set_localStorage set_isSyncing localStorage].
  destruct w2 as [st2 sy2 on2 [item|] r2 n2]; simpl in *.
  - eexists. split_and!; done.
  - eexists. split_and!; [done..|]. intros [x Hx].
    change (localStorage w1 = localStorage w) in Hls1.
    change (localStorage w = Some x) in Hx. congruence.
Qed.

End Frames.



Lemma fetch_error_still_success_witness :
  ∃ w3,
    synchronize Scenario.unavailable Scenario.fair_weather false
      (Scenario.browser Scenario.store_milk false true (Scenario.server_with_bread true))
    = (Returned (mkSyncResult true None None), w3) ∧
    isSyncing w3 = false ∧
    store w3 = Scenario.store_milk ∧
    localStorage w3 = Some (Some "2026-01-01T10:00:00.000Z").
Proof.
  pose (w := Scenario.browser Scenario.store_milk false true
               (Scenario.server_with_bread true)).
  pose (w1 := (push_phase Scenario.unavailable Scenario.fair_weather
                 (set_isSyncing true w)).2).
  pose (w2 := (pull_fetch Scenario.unavailable Scenario.fair_weather false w1).2).
  destruct (fetch_error_still_success Scenario.unavailable Scenario.fair_weather false
              w w1 w2 "unavailable")
    as (w3 & Hrun & Hflag & Hstore & Hmark).
  - reflexivity.
  - reflexivity.
  - vm_compute. reflexivity.
  - vm_compute. reflexivity.
  - exists w3. split_and!.
    + exact Hrun.
    + exact Hflag.
    + rewrite Hstore. vm_compute. reflexivity.
    + apply Hmark. vm_compute. eauto.
Defined.

(** ** The scenario of the specification, end to end *)

(** A record created offline is sent as a create; the server answers with
    [srv-1]; after the pass the store holds that one record, under its
    [local_id], with the server id, [synced]. *)
Example synchronize_buy_milk :
  let w' :=
    (synchronize Scenario.supabase Scenario.fair_weather false
       (Scenario.browser Scenario.store_milk false true
          (Scenario.mkServer [] ["srv-1"] "2026-01-01T09:59:59.000Z" true))).2 in
  size (store w') = 1 ∧
  (store w' !! "local_1") ≫= id = Some "srv-1" ∧
  (store w' !! "local_1") ≫= sync_status = Some synced ∧
  isSyncing w' = false.
Proof. vm_compute. done. Qed.

(** * Further properties of the local store *)

(** ** Listing *)

Lemma elem_of_store_values (st : Store) (t : Task) :
  t ∈ (snd <$> map_to_list st) ↔ ∃ k, st !! k = Some t.
Proof.
  rewrite list_elem_of_fmap. split.
  - intros ([k t'] & -> & Hin). exists k. by apply elem_of_map_to_list.
  - intros [k Hk]. exists (k, t). split; [done|]. by apply elem_of_map_to_list.
Qed.

Lemma elem_of_getAllTasks (st : Store) (t : Task) :
  t ∈ getAllTasks st ↔
  (∃ k, st !! k = Some t) ∧
  ¬ (is_deleted t = Some true ∧ sync_status t = Some synced).
Proof.
  unfold getAllTasks. rewrite list_elem_of_In, filter_In, <- list_elem_of_In.
  rewrite elem_of_store_values, negb_true_iff. unfold hidden.
  rewrite andb_false_iff, !bool_decide_eq_false.
  split; intros [Hin Hvis]; (split; [done|]).
  - intros [? ?]. by destruct Hvis.
  - destruct (decide (is_deleted t = Some true)); [right | by left].
    intros ?. by apply Hvis.
Qed.

(** X1.  [getAllTasks] lists exactly the stored records that are not
    reconciled tombstones: a record is left out if and only if it is deleted
    and [synced]. *)
Theorem getAllTasks_lists (st : Store) (t : Task) :
  t ∈ getAllTasks st ↔
  (∃ k, st !! k = Some t) ∧
  ¬ (is_deleted t = Some true ∧ sync_status t = Some synced).
Proof. apply elem_of_getAllTasks. Qed.

Lemma elem_of_getAll_by_sync_status (s : SyncStatus) (st : Store) (t : Task) :
  t ∈ getAll_by_sync_status s st ↔ (∃ k, st !! k = Some t) ∧ sync_status t = Some s.
Proof.
  unfold getAll_by_sync_status. rewrite list_elem_of_fmap. split.
  - intros ([k t'] & -> & Hin). rewrite merge_sort_Permutation in Hin.
    apply list_elem_of_In, filter_In in Hin as [Hin Hs].
    apply list_elem_of_In, elem_of_map_to_list in Hin.
    apply bool_decide_eq_true in Hs. eauto.
  - intros [[k Hk] Hs]. exists (k, t). split; [done|].
    rewrite merge_sort_Permutation. apply list_elem_of_In, filter_In. split.
    + by apply list_elem_of_In, elem_of_map_to_list.
    + by apply bool_decide_eq_true.
Qed.

Lemma NoDup_getAll_by_sync_status (s : SyncStatus) (st : Store) :
  wf_store st → NoDup (getAll_by_sync_status s st).
Proof.
  intros Hwf. unfold getAll_by_sync_status.
  apply NoDup_fmap_2_strong.
  - intros [k1 t1] [k2 t2] H1 H2 Heq. simpl in Heq. subst t2.
    rewrite merge_sort_Permutation in H1, H2.
    apply list_elem_of_In, filter_In in H1 as [H1 _].
    apply list_elem_of_In, filter_In in H2 as [H2 _].
    apply list_elem_of_In, elem_of_map_to_list in H1.
    apply list_elem_of_In, elem_of_map_to_list in H2.
    destruct (wf_store_key _ _ _ Hwf H1) as [Hl1 _].
    destruct (wf_store_key _ _ _ Hwf H2) as [Hl2 _]. congruence.
  - rewrite merge_sort_Permutation.
    apply NoDup_ListNoDup, List.NoDup_filter, NoDup_ListNoDup, NoDup_map_to_list.
Qed.

Lemma elem_of_getPendingChanges (st : Store) (t : Task) :
  t ∈ getPendingChanges st ↔ (∃ k, st !! k = Some t) ∧ is_pending t.
Proof.
  unfold getPendingChanges, is_pending.
  rewrite !elem_of_app, !elem_of_getAll_by_sync_status.
  split; [intros [[? ?]|[[? ?]|[? ?]]] | intros [? [?|[?|?]]]]; eauto 6.
Qed.

(** X2.  [getPendingChanges] returns exactly the stored records whose status
    is one of the three pending ones, never a [synced] one; and in a store
    that satisfies the index it returns each of them once. *)
Theorem getPendingChanges_lists (st : Store) :
  (∀ t, t ∈ getPendingChanges st ↔ (∃ k, st !! k = Some t) ∧ is_pending t) ∧
  (∀ t, t ∈ getPendingChanges st → sync_status t ≠ Some synced) ∧
  (wf_store st → NoDup (getPendingChanges st)).
Proof.
  split_and!; [apply elem_of_getPendingChanges | |].
  - intros t [_ Hp]%elem_of_getPendingChanges Hs. unfold is_pending in Hp.
    rewrite Hs in Hp. by destruct Hp as [?|[?|?]].
  - intros Hwf. unfold getPendingChanges.
    apply NoDup_app. split_and!.
    + by apply NoDup_getAll_by_sync_status.
    + intros t [_ H1]%elem_of_getAll_by_sync_status.
      rewrite elem_of_app, !elem_of_getAll_by_sync_status.
      intros [[_ ?]|[_ ?]]; congruence.
    + apply NoDup_app. split_and!; try by apply NoDup_getAll_by_sync_status.
      intros t [_ H1]%elem_of_getAll_by_sync_status.
      rewrite elem_of_getAll_by_sync_status. intros [_ ?]. congruence.
Qed.

Lemma getPendingChanges_lists_witness :
  NoDup (getPendingChanges Scenario.store_milk_B).
Proof.
  destruct (getPendingChanges_lists Scenario.store_milk_B) as (_ & _ & Hnodup).
  apply Hnodup. apply (bool_decide_unpack _). vm_compute. exact I.
Defined.

(** ** Lookup by server id, and deletion *)

Lemma getTaskByServerId_Some (st : Store) (s : string) (t : Task) :
  wf_store st →
  getTaskByServerId s st = Some t ↔ s ≠ "" ∧ ∃ k, st !! k = Some t ∧ id t = Some s.
Proof.
  intros Hwf. unfold getTaskByServerId. simpl.
  destruct (String.eqb_spec s "") as [->|Hne]; simpl.
  - split; [done | by intros [? _]].
  - split.
    + intros H%getFromIndex_id_inv. done.
    + intros [_ (k & Hk & Hid)]. by eapply getFromIndex_id_Some.
Qed.

(** X3.  In a store that satisfies the index, [getTaskByServerId s] finds a
    record exactly when [s] is not empty and that record is stored with
    server id [s]; the empty string finds nothing. *)
Theorem getTaskByServerId_finds (st : Store) (s : string) (t : Task) :
  wf_store st →
  getTaskByServerId s st = Some t ↔ s ≠ "" ∧ ∃ k, st !! k = Some t ∧ id t = Some s.
Proof. apply getTaskByServerId_Some. Qed.

Lemma getTaskByServerId_finds_witness :
  getTaskByServerId "srv-1" Scenario.store_AB = Some Scenario.bread_edited.
Proof.
  apply getTaskByServerId_finds.
  - apply (bool_decide_unpack _). vm_compute. exact I.
  - split; [discriminate|]. exists "local_B". split; [vm_compute|]; reflexivity.
Defined.

(** X4.  After [saveTask] of a task with a non-empty server id [s], the
    record it stored is the one both lookups find: by the returned [local_id]
    and by [s]; it has the domain fields of the input. *)
Theorem saveTask_then_getTaskByServerId (r : Reads) (t : Task) (s : string)
    (st : Store) :
  wf_store st → id t = Some s → s ≠ "" →
  ∃ k st' t',
    saveTask r t st = Ok (k, st') ∧
    getTaskByServerId s st' = Some t' ∧
    getTaskByLocalId k st' = Some t' ∧
    domain t' = domain t ∧ id t' = Some s.
Proof.
  intros Hwf Hid Hne.
  destruct (saveTask_total r t st Hwf) as (k & Hk & Hl & Hsave); [congruence|].
  exists k, (<[k := save_record r t st]> st), (save_record r t st).
  assert (wf_store (<[k := save_record r t st]> st)) as Hwf'
    by by eapply saveTask_wf.
  assert (id (save_record r t st) = Some s) as Hid' by by rewrite save_record_id.
  split_and!; [done | | | apply save_record_domain | done].
  - apply getTaskByServerId_Some; [done|]. split; [done|].
    exists k. split; [apply lookup_insert_eq | done].
  - unfold getTaskByLocalId.
    assert (truthy (Some k) = true) as -> by (apply truthy_Some; eauto).
    apply lookup_insert_eq.
Qed.

Lemma saveTask_then_getTaskByServerId_witness :
  ∃ k st' t',
    saveTask Scenario.the_reads Scenario.bread_from_server Scenario.store_AB
    = Ok (k, st') ∧
    getTaskByServerId "srv-1" st' = Some t' ∧
    getTaskByLocalId k st' = Some t' ∧
    domain t' = domain Scenario.bread_from_server ∧ id t' = Some "srv-1".
Proof.
  apply saveTask_then_getTaskByServerId.
  - apply (bool_decide_unpack _). vm_compute. exact I.
  - reflexivity.
  - discriminate.
Defined.

(** X5.  [deleteTask] undoes a [saveTask] that created a record: when the
    returned [local_id] was free before the save, deleting it gives back the
    store as it was; and the server id of the deleted record is free again. *)
Theorem deleteTask_undoes_saveTask (r : Reads) (t : Task) (st st' : Store)
    (k : string) :
  wf_store st → saveTask r t st = Ok (k, st') → st !! k = None →
  deleteTask k st' = st ∧
  getTaskByLocalId k (deleteTask k st') = None ∧
  ∀ s, id t = Some s → getTaskByServerId s (deleteTask k st') = None.
Proof.
  intros Hwf Hsave Hfree.
  pose proof Hsave as [Hl (k' & Hl' & -> & Hu)%put_Ok]%saveTask_Ok.
  assert (k' = k) as -> by congruence.
  assert (deleteTask k (<[k := save_record r t st]> st) = st) as Hdel.
  { unfold deleteTask. by rewrite delete_insert_id. }
  rewrite Hdel. split_and!; [done | |].
  - unfold getTaskByLocalId. by destruct (negb _).
  - intros s Hs. unfold getTaskByServerId. destruct (negb _); [done|].
    apply getFromIndex_id_None. intros k1 t1 Hk1 Hid1.
    assert (k1 = k) as ->; [|congruence].
    eapply Hu; [|done..]. by rewrite save_record_id.
Qed.

Lemma deleteTask_undoes_saveTask_witness :
  deleteTask "local_1" (<["local_1" := save_record Scenario.the_reads Scenario.milk ∅]> ∅)
  = ∅.
Proof.
  apply (deleteTask_undoes_saveTask Scenario.the_reads Scenario.milk ∅ _ "local_1").
  - apply wf_store_empty.
  - vm_compute. reflexivity.
  - reflexivity.
Defined.

(** ** More on [saveTask] *)

Lemma save_stamp_without_id r t :
  truthy (id t) = false → sync_status (save_stamp r t) = Some pending_create.
Proof.
  destruct t as [ti tl tt td ta ts tdel tc tu tsy], r as [dn rs i1 i2].
  simpl. intros Hid.
  destruct ti as [[|? ?]|]; try discriminate Hid;
    destruct tc as [[|? ?]|], tsy as [[]|], i1 as [|? ?], i2 as [|? ?]; reflexivity.
Qed.

Lemma consolidate_without_id (st : Store) t :
  truthy (id t) = false → consolidate st t = t.
Proof. intros Hid. unfold consolidate. by rewrite Hid. Qed.

Lemma save_assign_local_id_keeps r t k :
  local_id t = Some k → blank k = false → save_assign_local_id r t = t.
Proof.
  intros Hl Hb. unfold save_assign_local_id. rewrite Hl. simpl. rewrite Hb.
  destruct k; [done|]. done.
Qed.

(** X6.  A task saved without a server id is always queued for creation:
    [saveTask] returns, the stored record is [pending_create] whatever status
    the input had, it is among the pending changes and it is listed by
    [getAllTasks]; a [local_id] of the input that [trim] does not leave empty
    is the key used. *)
Theorem saveTask_without_id_is_queued (r : Reads) (t : Task) (st : Store) :
  wf_store st → id t = None →
  ∃ k st' t',
    saveTask r t st = Ok (k, st') ∧
    st' !! k = Some t' ∧
    sync_status t' = Some pending_create ∧
    t' ∈ getPendingChanges st' ∧
    t' ∈ getAllTasks st' ∧
    (∀ k0, local_id t = Some k0 → blank k0 = false → k = k0).
Proof.
  intros Hwf Hid.
  destruct (saveTask_total r t st Hwf) as (k & Hk & Hl & Hsave); [congruence|].
  exists k, (<[k := save_record r t st]> st), (save_record r t st).
  assert (sync_status (save_record r t st) = Some pending_create) as Hs.
  { unfold save_record. apply save_stamp_without_id.
    by rewrite consolidate_id, save_assign_local_id_id, Hid. }
  split_and!; [done | apply lookup_insert_eq | done | | |].
  - apply elem_of_getPendingChanges. split; [|by left].
    exists k. apply lookup_insert_eq.
  - apply elem_of_getAllTasks. split; [exists k; apply lookup_insert_eq|].
    intros [_ ?]. congruence.
  - intros k0 Hk0 Hb. rewrite save_record_local_id in Hl.
    rewrite (save_assign_local_id_keeps r t k0) in Hl by done.
    rewrite consolidate_without_id in Hl by by rewrite Hid. congruence.
Qed.

Lemma saveTask_without_id_is_queued_witness :
  ∃ k st' t',
    saveTask Scenario.the_reads Scenario.draft Scenario.store_B = Ok (k, st') ∧
    st' !! k = Some t' ∧
    sync_status t' = Some pending_create ∧
    t' ∈ getPendingChanges st' ∧
    t' ∈ getAllTasks st' ∧
    (∀ k0, local_id Scenario.draft = Some k0 → blank k0 = false → k = k0).
Proof.
  apply saveTask_without_id_is_queued.
  - apply (bool_decide_unpack _). vm_compute. exact I.
  - reflexivity.
Defined.

(** [trim] removes every white-space code point, not only the one-byte ones:
    [saveTask] replaces a key made of Unicode spaces, which [bulkSaveTasks]
    (it tests [!local_id] only) keeps. *)
Example white_space_key_is_blank :
  blank white_space_key = true ∧
  local_id (save_assign_local_id Scenario.the_reads
              (set_local_id (Some white_space_key) Scenario.draft))
  = Some "local_new_1767261600000_k3x9a2b" ∧
  local_id (bulk_assign_local_id Scenario.the_reads
              (set_local_id (Some white_space_key) Scenario.draft))
  = Some white_space_key.
Proof. split_and!; reflexivity. Qed.

Lemma save_stamp_idempotent r t : save_stamp r (save_stamp r t) = save_stamp r t.
Proof.
  destruct r as [dn rs i1 i2], t as [ti tl tt td ta ts tdel tc tu tsy].
  destruct ti as [[|? ?]|], tc as [[|? ?]|], tsy as [[]|], i1 as [|? ?], i2 as [|? ?];
    reflexivity.
Qed.

Lemma set_local_id_same (t : Task) k : local_id t = Some k → set_local_id (Some k) t = t.
Proof. destruct t. simpl. by intros ->. Qed.

Lemma consolidate_assign_shape (st : Store) r t :
  consolidate st (save_assign_local_id r t)
  = set_local_id (local_id (consolidate st (save_assign_local_id r t))) t.
Proof.
  destruct t as [ti tl tt td ta ts tdel tc tu tsy].
  unfold consolidate, save_assign_local_id. simpl.
  destruct (_ || _); simpl; destruct (truthy ti); simpl; try reflexivity;
    destruct (getFromIndex_id _ st); simpl; try reflexivity;
    destruct (_ && _); reflexivity.
Qed.

(** X7.  Saving again the record [saveTask] has just stored, with the clock
    at the same reading, changes nothing: same key, same store.  (The key must
    be non-blank or the task must have a server id; a blank key without server
    id would be replaced by a new one.) *)
Theorem saveTask_idempotent (r : Reads) (t t' : Task) (st st' : Store) (k : string) :
  wf_store st → saveTask r t st = Ok (k, st') →
  blank k = false ∨ truthy (id t) = true →
  st' !! k = Some t' →
  saveTask r t' st' = Ok (k, st').
Proof.
  intros Hwf Hsave Hkey Hk.
  assert (wf_store st') as Hwf' by by eapply saveTask_wf.
  pose proof Hsave as [Hl (k' & Hl' & -> & _)%put_Ok]%saveTask_Ok.
  assert (k' = k) as -> by congruence.
  clear Hl'. rewrite lookup_insert_eq in Hk. injection Hk as <-.
  set (t' := save_record r t st) in *.
  assert (id t' = id t) as Hid by apply save_record_id.
  assert (consolidate (<[k := t']> st) (save_assign_local_id r t') = t') as Hc.
  { destruct (truthy (id t)) eqn:Ht.
    - apply truthy_Some in Ht as (s & Hs & Hne).
      assert (local_id (consolidate (<[k := t']> st) (save_assign_local_id r t'))
              = Some k) as Hlc.
      { apply (consolidate_holder _ _ s k t'); try done.
        - rewrite save_assign_local_id_id. congruence.
        - apply lookup_insert_eq.
        - congruence. }
      rewrite consolidate_assign_shape, Hlc. by apply set_local_id_same.
    - destruct Hkey as [Hb|?]; [|congruence].
      rewrite (save_assign_local_id_keeps r t' k) by done.
      apply consolidate_without_id. congruence. }
  assert (save_record r t' (<[k := t']> st) = t') as Hrec.
  { unfold save_record at 1. rewrite Hc. unfold t', save_record.
    apply save_stamp_idempotent. }
  apply saveTask_Ok. rewrite Hrec. split; [done|].
  apply put_Ok. exists k. split_and!; [done | by rewrite insert_insert_eq |].
  intros s k1 t1 Hs Hk1 Hid1.
  apply (wf_store_unique (<[k := t']> st) k1 k t1 t' s); try done.
  apply lookup_insert_eq.
Qed.

Lemma saveTask_idempotent_witness :
  saveTask Scenario.the_reads (save_record Scenario.the_reads Scenario.milk ∅)
    (<["local_1" := save_record Scenario.the_reads Scenario.milk ∅]> ∅)
  = Ok ("local_1", <["local_1" := save_record Scenario.the_reads Scenario.milk ∅]> ∅).
Proof.
  apply (saveTask_idempotent Scenario.the_reads Scenario.milk _ ∅).
  - apply wf_store_empty.
  - vm_compute. reflexivity.
  - left. reflexivity.
  - vm_compute. reflexivity.
Defined.

(** ** More on [updateTaskAfterSync] *)

Lemma merge_with_server_updated_at now k base over :
  updated_at (merge_with_server now k base over) = js_or (updated_at over) (Some now).
Proof. unfold merge_with_server. crush_ifs. Qed.

Lemma spread_id base over :
  id (spread base over) = or_else (id over) (base ≫= id).
Proof. destruct base; simpl; [done|]. by destruct (id over). Qed.

Lemma updateTaskAfterSync_no_conflict (now local_A : string) (serverTask : Task)
    (st : Store) :
  wf_store st →
  (∀ s k t, id serverTask = Some s → st !! k = Some t → id t = Some s → k = local_A) →
  updateTaskAfterSync now local_A serverTask st
  = Ok (<[local_A := merge_with_server now local_A (st !! local_A) serverTask]> st).
Proof.
  intros Hwf Hfree. unfold updateTaskAfterSync.
  destruct (conflicting_local_id local_A serverTask st) as [kc|] eqn:Hc.
  - apply conflicting_local_id_Some in Hc
      as (Hne & _ & s & c & Hs & _ & Hidx & Hlc).
    apply getFromIndex_id_inv in Hidx as (k & Hk & Hidc).
    assert (k = local_A) as -> by eauto.
    destruct (wf_store_key _ _ _ Hwf Hk) as [Hl _]. congruence.
  - apply put_Ok. exists local_A.
    split_and!; [apply merge_with_server_local_id | done |].
    intros s k t. rewrite merge_with_server_id, spread_id.
    destruct (id serverTask) as [s'|] eqn:Hs; simpl.
    + intros [= <-]. eauto.
    + destruct (st !! local_A) as [b|] eqn:Hb; simpl; [|done].
      intros Hidb Hk Hidt. eapply wf_store_unique; eauto.
Qed.

(** X8.  Without a conflict (no other record has the server id of
    [serverTask]), [updateTaskAfterSync] returns and writes the merge in
    place: the record under [local_A] becomes the old one overlaid by
    [serverTask], marked [synced], stamped with the server's [updated_at] (the
    clock when there is none); nothing is deleted and no other record changes.
    When [local_A] holds nothing the server record is stored there. *)
Theorem updateTaskAfterSync_in_place (now local_A : string) (serverTask : Task)
    (st : Store) :
  wf_store st →
  (∀ s k t, id serverTask = Some s → st !! k = Some t → id t = Some s → k = local_A) →
  ∃ merged,
    updateTaskAfterSync now local_A serverTask st = Ok (<[local_A := merged]> st) ∧
    merged = merge_with_server now local_A (st !! local_A) serverTask ∧
    local_id merged = Some local_A ∧
    sync_status merged = Some synced ∧
    id merged = or_else (id serverTask) (st !! local_A ≫= id) ∧
    domain merged = domain (spread (st !! local_A) serverTask) ∧
    updated_at merged = js_or (updated_at serverTask) (Some now).
Proof.
  intros Hwf Hfree.
  exists (merge_with_server now local_A (st !! local_A) serverTask).
  split_and!; try done.
  - by apply updateTaskAfterSync_no_conflict.
  - apply merge_with_server_sync.
  - by rewrite merge_with_server_id, spread_id.
  - apply merge_with_server_domain.
  - apply merge_with_server_updated_at.
Qed.

Lemma updateTaskAfterSync_in_place_witness :
  ∃ merged,
    updateTaskAfterSync "2026-01-01T10:00:00.000Z" "local_B" Scenario.bread_from_server
      Scenario.store_milk_B
    = Ok (<["local_B" := merged]> Scenario.store_milk_B) ∧
    merged = merge_with_server "2026-01-01T10:00:00.000Z" "local_B"
               (Scenario.store_milk_B !! "local_B") Scenario.bread_from_server ∧
    local_id merged = Some "local_B" ∧
    sync_status merged = Some synced ∧
    id merged = or_else (id Scenario.bread_from_server)
                  (Scenario.store_milk_B !! "local_B" ≫= id) ∧
    domain merged
    = domain (spread (Scenario.store_milk_B !! "local_B") Scenario.bread_from_server) ∧
    updated_at merged
    = js_or (updated_at Scenario.bread_from_server) (Some "2026-01-01T10:00:00.000Z").
Proof.
  apply updateTaskAfterSync_in_place.
  - apply (bool_decide_unpack _). vm_compute. exact I.
  - intros s k t [= <-] Hk Hid.
    assert (Scenario.store_milk_B !! "local_B" = Some Scenario.bread_edited) as HB
      by (vm_compute; reflexivity).
    assert (wf_store Scenario.store_milk_B) as Hwf.
    { apply (bool_decide_unpack _). vm_compute. exact I. }
    exact (wf_store_unique _ _ _ _ _ _ Hwf Hk HB Hid eq_refl).
Defined.

Lemma updateTaskAfterSync_at_local_A now local_A serverTask (st st' : Store) :
  local_A ≠ "" →
  updateTaskAfterSync now local_A serverTask st = Ok st' →
  st' !! local_A = None ∨
  ∃ m, st' !! local_A = Some m ∧ sync_status m = Some synced.
Proof.
  intros Hne. unfold updateTaskAfterSync.
  destruct (conflicting_local_id local_A serverTask st) as [kc|] eqn:Hc.
  - apply conflicting_local_id_Some in Hc as (Hkc & _).
    destruct (put _ st) as [st1|e]; [|done].
    assert (truthy (Some local_A) = true) as -> by (apply truthy_Some; eauto).
    rewrite bool_decide_eq_true_2 by congruence. simpl.
    intros [= <-]. left. apply lookup_delete_eq.
  - intros (k & Hl & -> & _)%put_Ok. rewrite merge_with_server_local_id in Hl.
    injection Hl as <-. right. eexists. split; [apply lookup_insert_eq|].
    apply merge_with_server_sync.
Qed.

Lemma not_pending_after_reconcile (now local_A : string) (serverTask : Task)
    (st st' : Store) :
  wf_store st → local_A ≠ "" →
  updateTaskAfterSync now local_A serverTask st = Ok st' →
  ∀ t, t ∈ getPendingChanges st' → local_id t ≠ Some local_A.
Proof.
  intros Hwf Hne Hrun t Hin Hl.
  assert (wf_store st') as Hwf' by by eapply updateTaskAfterSync_wf.
  apply elem_of_getPendingChanges in Hin as [[k Hk] Hp].
  destruct (wf_store_key _ _ _ Hwf' Hk) as [Hlk _].
  assert (k = local_A) as -> by congruence.
  destruct (updateTaskAfterSync_at_local_A _ _ _ _ _ Hne Hrun) as [Hnone|(m & Hm & Hs)].
  - congruence.
  - assert (m = t) as -> by congruence. unfold is_pending in Hp.
    rewrite Hs in Hp. by destruct Hp as [?|[?|?]].
Qed.

(** X9.  After [updateTaskAfterSync local_A] has returned, no pending change
    carries [local_A]: the record pushed is not pushed again. *)
Theorem reconciled_is_not_pending (now local_A : string) (serverTask : Task)
    (st st' : Store) :
  wf_store st → local_A ≠ "" →
  updateTaskAfterSync now local_A serverTask st = Ok st' →
  ∀ t, t ∈ getPendingChanges st' → local_id t ≠ Some local_A.
Proof. apply not_pending_after_reconcile. Qed.

Lemma reconciled_is_not_pending_witness :
  Forall (λ t, local_id t ≠ Some "local_1")
    (getPendingChanges
       (<["local_1" := merge_with_server "2026-01-01T10:00:00.000Z" "local_1"
                         (Scenario.store_milk !! "local_1")
                         Scenario.bread_from_server]> Scenario.store_milk)).
Proof.
  apply Forall_forall.
  apply (reconciled_is_not_pending "2026-01-01T10:00:00.000Z" "local_1"
           Scenario.bread_from_server Scenario.store_milk).
  - apply (bool_decide_unpack _). vm_compute. exact I.
  - discriminate.
  - vm_compute. reflexivity.
Defined.

(** ** [updateLocalTaskStatus] *)

(** X10.  [updateLocalTaskStatus] on a [local_id] that holds nothing does
    nothing and reports no error.  When it returns it never adds or removes a
    record, touches no record but the one under [k], and on that one changes
    only the status, [updated_at] and, when a non-empty one is given, the
    server id: the domain fields and [created_at] are kept. *)
Theorem updateLocalTaskStatus_frame (now k : string) (s : SyncStatus)
    (sd : option ServerData) (st : Store) :
  (st !! k = None → updateLocalTaskStatus now k s sd st = Ok st) ∧
  (∀ st', updateLocalTaskStatus now k s sd st = Ok st' →
     dom st' = dom st ∧
     (∀ k', k' ≠ k → st' !! k' = st !! k') ∧
     (∀ task, st !! k = Some task →
        ∃ t', st' !! k = Some t' ∧
              domain t' = domain task ∧
              created_at t' = created_at task ∧
              local_id t' = Some k ∧
              sync_status t' = Some s ∧
              updated_at t' = js_or (sd ≫= sd_updated_at) (Some now) ∧
              id t' = if truthy (sd ≫= sd_id) then sd ≫= sd_id else id task)).
Proof.
  unfold updateLocalTaskStatus. split.
  - by intros ->.
  - intros st'. destruct (st !! k) as [task|] eqn:Hk.
    + intros (k0 & Hl & -> & _)%put_Ok.
      assert (k0 = k) as ->.
      { destruct (truthy (sd ≫= sd_id)); simpl in Hl; congruence. }
      split_and!.
      * apply dom_insert_lookup_L. by rewrite Hk.
      * intros k' Hne. by rewrite lookup_insert_ne.
      * intros task' [= <-]. eexists. split; [apply lookup_insert_eq|].
        destruct (truthy (sd ≫= sd_id)); done.
    + intros [= <-]. split_and!; [done..|]. intros task Habs. congruence.
Qed.

Lemma updateLocalTaskStatus_frame_witness :
  updateLocalTaskStatus "2026-01-01T10:00:00.000Z" "local_9" pending_update None
    Scenario.store_milk = Ok Scenario.store_milk.
Proof.
  destruct (updateLocalTaskStatus_frame "2026-01-01T10:00:00.000Z" "local_9"
              pending_update None Scenario.store_milk) as [Hmissing _].
  apply Hmissing. vm_compute. reflexivity.
Defined.

(** X11.  Unlike [saveTask] and [updateTaskAfterSync], [updateLocalTaskStatus]
    does not consolidate: given a server id that another record already has,
    the write is refused by the unique index ([ConstraintError]). *)
Theorem updateLocalTaskStatus_taken_id (now k k2 i : string) (s : SyncStatus)
    (u : option string) (task other : Task) (st : Store) :
  st !! k = Some task → i ≠ "" →
  st !! k2 = Some other → id other = Some i → k2 ≠ k →
  updateLocalTaskStatus now k s (Some (mkServerData (Some i) u)) st
  = Err ConstraintError.
Proof.
  intros Hk Hi Hk2 Hid Hne. unfold updateLocalTaskStatus. rewrite Hk. simpl.
  assert (negb (i =? "")%string = true) as ->.
  { apply negb_true_iff. by apply String.eqb_neq. }
  unfold put. simpl.
  rewrite bool_decide_eq_false_2; [done|].
  rewrite holders_all_at. intros H. apply Hne. eauto.
Qed.

Lemma updateLocalTaskStatus_taken_id_witness :
  updateLocalTaskStatus "2026-01-01T10:00:00.000Z" "local_1" synced
    (Some (mkServerData (Some "srv-1") None)) Scenario.store_milk_B
  = Err ConstraintError.
Proof.
  apply (updateLocalTaskStatus_taken_id _ "local_1" "local_B" "srv-1" synced None
           Scenario.milk Scenario.bread_edited).
  - vm_compute. reflexivity.
  - discriminate.
  - vm_compute. reflexivity.
  - reflexivity.
  - discriminate.
Defined.

(** ** More on [bulkSaveTasks] *)

Lemma bulkSaveTasks_from_total rd i ts (st : Store) :
  wf_store st → Forall (λ t, id t ≠ Some "") ts →
  ∃ st', bulkSaveTasks_from rd i ts st = Ok st' ∧ wf_store st' ∧ dom st ⊆ dom st'.
Proof.
  revert i st. induction ts as [|t ts IH]; intros i st Hwf Hts; simpl.
  - eauto.
  - apply Forall_cons in Hts as [Ht Hts].
    destruct (put_consolidated st (bulk_assign_local_id (rd i) t)
                (bulk_record (rd i) t st))
      as (k & Hk & Hne & Hput); auto.
    + by rewrite bulk_assign_local_id_id.
    + apply bulk_assign_local_id_truthy.
    + unfold bulk_record.
      by rewrite bulk_stamp_id, consolidate_id.
    + unfold bulk_record. by rewrite bulk_stamp_local_id.
    + rewrite Hput.
      destruct (IH (S i) (<[k := bulk_record (rd i) t st]> st))
        as (st' & Hrun & Hwf' & Hdom); [|done|].
      * eapply put_wf; [done..|]. congruence.
      * exists st'. split_and!; [done..|].
        etrans; [|done]. rewrite dom_insert_L. set_solver.
Qed.

(** X12.  In a store that satisfies the index, [bulkSaveTasks] of records
    whose server id is absent or not empty never aborts: consolidation keeps
    every [put] clear of the unique index, also when the page names the same
    server id twice.  The store it leaves satisfies the index and has lost no
    key. *)
Theorem bulkSaveTasks_never_aborts (rd : nat → Reads) (ts : list Task) (st : Store) :
  wf_store st → Forall (λ t, id t ≠ Some "") ts →
  ∃ st', bulkSaveTasks rd ts st = Ok st' ∧ wf_store st' ∧ dom st ⊆ dom st'.
Proof. apply bulkSaveTasks_from_total. Qed.

Lemma bulkSaveTasks_never_aborts_witness :
  ∃ st',
    bulkSaveTasks (λ _, Scenario.the_reads)
      [Scenario.bread_row; Scenario.draft; Scenario.bread_from_server]
      Scenario.store_milk_B = Ok st' ∧
    wf_store st' ∧ dom Scenario.store_milk_B ⊆ dom st'.
Proof.
  apply bulkSaveTasks_never_aborts.
  - apply (bool_decide_unpack _). vm_compute. exact I.
  - apply (bool_decide_unpack _). vm_compute. exact I.
Defined.

(** ** Every stored record is complete *)

Lemma truthy_is_Some o : truthy o = true → is_Some o.
Proof. intros (s & -> & _)%truthy_Some. eauto. Qed.

Lemma js_or_is_Some a b : is_Some (js_or a (Some b)).
Proof. unfold js_or. destruct (truthy a) eqn:E; [by apply truthy_is_Some | eauto]. Qed.

Lemma save_stamp_complete r t : is_Some (local_id t) → complete (save_stamp r t).
Proof.
  destruct r as [dn rs i1 i2], t as [ti tl tt td ta ts tdel tc tu tsy].
  simpl. intros Hl.
  destruct ti as [[|? ?]|], tc as [[|? ?]|], tsy as [[]|], i1 as [|? ?], i2 as [|? ?];
    (split_and!; simpl; eauto).
Qed.

Lemma bulk_stamp_complete r t : is_Some (local_id t) → complete (bulk_stamp r t).
Proof.
  destruct r as [dn rs i1 i2], t as [ti tl tt td ta ts tdel tc tu tsy].
  simpl. intros Hl.
  destruct ti as [[|? ?]|], tc as [[|? ?]|], tu as [[|? ?]|], tsy as [[]|];
    (split_and!; simpl; eauto).
Qed.

Lemma merge_with_server_created_at now k base over :
  is_Some (created_at (merge_with_server now k base over)).
Proof.
  unfold merge_with_server. simpl.
  destruct (negb _ && truthy (base ≫= created_at)) eqn:E1.
  - apply andb_true_iff in E1 as [_ E1]. simpl. by apply truthy_is_Some.
  - destruct (negb (truthy (created_at _))) eqn:E2; simpl.
    + apply js_or_is_Some.
    + apply negb_false_iff in E2. by apply truthy_is_Some.
Qed.

Lemma merge_with_server_complete now k base over :
  complete (merge_with_server now k base over).
Proof.
  split_and!.
  - rewrite merge_with_server_local_id. eauto.
  - apply merge_with_server_created_at.
  - rewrite merge_with_server_updated_at. apply js_or_is_Some.
  - rewrite merge_with_server_sync. eauto.
Qed.

Lemma put_all_complete (t : Task) (st st' : Store) :
  all_complete st → put t st = Ok st' → complete t → all_complete st'.
Proof. intros Hinv (k & _ & -> & _)%put_Ok Ht. by apply map_Forall_insert_2. Qed.

Lemma bulkSaveTasks_from_all_complete rd i ts (st st' : Store) :
  all_complete st → bulkSaveTasks_from rd i ts st = Ok st' → all_complete st'.
Proof.
  revert i st. induction ts as [|t ts IH]; intros i st Hinv; simpl.
  - by intros [= <-].
  - destruct (put (bulk_record (rd i) t st) st) as [st1|e] eqn:E; [|done].
    apply IH. eapply put_all_complete; [done..|].
    apply bulk_stamp_complete, truthy_is_Some.
    apply consolidate_truthy, bulk_assign_local_id_truthy.
Qed.

Lemma apply_op_all_complete (op : Op) (st : Store) :
  all_complete st → all_complete (apply_op op st).
Proof.
  intros Hinv. destruct op as [r t|rd ts|now k serverTask|now k s sd|k]; simpl.
  - destruct (saveTask r t st) as [[k st']|e] eqn:E; simpl; [|done].
    apply saveTask_Ok in E as [_ Hput]. eapply put_all_complete; [done..|].
    apply save_stamp_complete, truthy_is_Some.
    apply consolidate_truthy, save_assign_local_id_truthy.
  - destruct (bulkSaveTasks rd ts st) as [st'|e] eqn:E; [|done].
    by eapply bulkSaveTasks_from_all_complete.
  - destruct (updateTaskAfterSync now k serverTask st) as [st'|e] eqn:E; [|done].
    unfold updateTaskAfterSync in E.
    destruct (conflicting_local_id k serverTask st) as [kc|].
    + destruct (put _ st) as [st1|e1] eqn:Hput; [|done].
      assert (all_complete st1) as H1.
      { eapply put_all_complete; [done..|].
        destruct (merge_with_server_complete now k (st !! k) serverTask)
          as (_ & ? & ? & ?).
        split_and!; simpl; eauto. }
      destruct (_ && _); injection E as <-; [|done].
      by apply map_Forall_delete.
    + eapply put_all_complete; [done..|]. apply merge_with_server_complete.
  - destruct (updateLocalTaskStatus now k s sd st) as [st'|e] eqn:E; [|done].
    unfold updateLocalTaskStatus in E.
    destruct (st !! k) as [task|] eqn:Hk; [|by injection E as <-].
    eapply put_all_complete; [done..|].
    destruct (Hinv k task Hk) as (_ & Hc & _ & _).
    destruct (truthy (sd ≫= sd_id)); (split_and!; simpl; eauto using js_or_is_Some).
  - unfold deleteTask. by apply map_Forall_delete.
Qed.

(** X14.  Whatever the store operations are given, every record they leave
    has a [local_id], a [created_at], an [updated_at] and a [sync_status]: a
    store of complete records stays one under any sequence of [saveTask],
    [bulkSaveTasks], [updateTaskAfterSync], [updateLocalTaskStatus] and
    [deleteTask], so every record starting from the empty store is listed by
    the indexes on [sync_status] and [updated_at]. *)
Theorem all_complete_preserved (ops : list Op) (st : Store) :
  all_complete st → all_complete (run_ops ops st).
Proof.
  revert st. induction ops as [|op ops IH]; intros st Hinv; simpl; [done|].
  by apply IH, apply_op_all_complete.
Qed.

Lemma all_complete_preserved_witness :
  all_complete
    (run_ops [OpBulkSave (λ _, Scenario.the_reads) [Scenario.draft; Scenario.bread_row];
              OpSave Scenario.the_reads Scenario.milk;
              OpSetStatus "2026-01-01T10:00:02.000Z" "local_1" synced None;
              OpReconcile "2026-01-01T10:00:03.000Z" "local_7" Scenario.draft] ∅).
Proof. apply all_complete_preserved. apply map_Forall_empty. Defined.

(** * Further properties of the sync engine *)

Section EngineMore.
Context {Remote : Type}.
Variable sb : Supabase Remote.
Variable env : Oracles.
Implicit Types w : World (Remote := Remote).

Lemma keeps_engine_state_bulkSaveTasks_io ts :
  keeps_engine_state (Remote := Remote) (bulkSaveTasks_io env ts).
Proof.
  apply keeps_engine_state_bind; [apply keeps_engine_state_getDB|]. intros _.
  apply keeps_engine_state_bind; [apply keeps_engine_state_get_world|]. intros w0.
  apply keeps_engine_state_bind; [apply keeps_engine_state_transaction|]. intros _.
  intros w o w' [= _ <-]. done.
Qed.

(** What the end of the pass does to the watermark. *)
Lemma pull_merge_and_finish_watermark fetched w o w' :
  pull_merge_and_finish env fetched w = (o, w') →
  match o with
  | Returned r =>
      success r = true ∧
      (is_Some (localStorage w) →
       ∃ n, localStorage w' = Some (Some (iso_now (reads env n))))
  | Thrown _ => localStorage w' = localStorage w
  end.
Proof.
  unfold pull_merge_and_finish, bind.
  destruct (match tasks fetched with
            | Some [] | None => ret tt
            | Some l => bulkSaveTasks_io env l
            end w) as [[[]|e] w1] eqn:E.
  - assert (localStorage w1 = localStorage w) as Hls.
    { destruct (tasks fetched) as [[|t l]|]; try by injection E as <-.
      by apply keeps_engine_state_bulkSaveTasks_io in E as [? _]. }
    cbv [read_env bind tick ret setLastSyncTimestamp get_world modify].
    destruct w1 as [st1 sy1 on1 [item|] r1 n1]; simpl in *.
    + intros [= <- <-]. simpl. split; [reflexivity|]. intros _. by exists n1.
    + intros [= <- <-]. simpl. split; [reflexivity|]. rewrite <- Hls. by intros [? ?].
  - intros [= <- <-].
    destruct (tasks fetched) as [[|t l]|]; try done.
    by apply keeps_engine_state_bulkSaveTasks_io in E as [? _].
Qed.

(** X15.  The watermark moves exactly when the pass reports success.  A call
    that returns a failure (offline, busy, or an exception caught anywhere in
    the pass) leaves [localStorage] as it was, so the next pass fetches from
    the same point; a call that returns success has set the watermark (where
    [localStorage] exists) to a reading of the clock. *)
Theorem watermark_moves_with_success (forceFullSync : bool) w (r : SyncResult) w' :
  synchronize sb env forceFullSync w = (Returned r, w') →
  (success r = false → localStorage w' = localStorage w) ∧
  (success r = true → is_Some (localStorage w) →
   ∃ n, localStorage w' = Some (Some (iso_now (reads env n)))).
Proof.
  unfold synchronize, bind at 1, get_world.
  destruct (is_offline w); [by intros [= <- <-]|].
  destruct (isSyncing w); [by intros [= <- <-]|].
  unfold bind at 1, modify, try_catch, bind at 1.
  destruct (push_phase sb env (set_isSyncing true w)) as [[[]|e] w1] eqn:Hpush.
  - destruct (keeps_engine_state_push_phase sb env _ _ _ Hpush) as [Hls1 _].
    change (localStorage w1 = localStorage w) in Hls1.
    unfold pull_phase, bind at 1.
    destruct (pull_fetch sb env forceFullSync w1) as [[fetched|e] w2] eqn:Hfetch.
    + destruct (keeps_engine_state_pull_fetch sb env _ _ _ _ Hfetch) as [Hls2 _].
      destruct (pull_merge_and_finish env fetched w2) as [[r'|e] w3] eqn:Hfin;
        apply pull_merge_and_finish_watermark in Hfin.
      * intros [= <- <-]. destruct Hfin as [Hs Hmark]. split; [congruence|].
        intros _ Hsome. apply Hmark. by rewrite Hls2, Hls1.
      * unfold on_failure, bind, modify, ret. intros [= <- <-]. simpl.
        split; [congruence | done].
    + destruct (keeps_engine_state_pull_fetch sb env _ _ _ _ Hfetch) as [Hls2 _].
      unfold on_failure, bind, modify, ret. intros [= <- <-]. simpl.
      split; [congruence | done].
  - destruct (keeps_engine_state_push_phase sb env _ _ _ Hpush) as [Hls1 _].
    unfold on_failure, bind, modify, ret. intros [= <- <-]. simpl.
    split; [done | done].
Qed.

Lemma fetchServerUpdates_no_watermark (item : option string) (r : Remote) :
  truthy item = false → fetchServerUpdates sb item r = fetchServerUpdates sb None r.
Proof.
  intros H. unfold fetchServerUpdates, onlineDB_getTasksModifiedSince. by rewrite H.
Qed.

Lemma synchronize_unfold (forceFullSync : bool) w :
  synchronize sb env forceFullSync w =
  if is_offline w then (Returned offline_result, w)
  else if isSyncing w then (Returned busy_result, w)
  else try_catch (bind (push_phase sb env) (λ _, pull_phase sb env forceFullSync))
         on_failure (set_isSyncing true w).
Proof.
  unfold synchronize, bind at 1, get_world.
  destruct (is_offline w); [done|]. by destruct (isSyncing w).
Qed.

(** X16.  With no stored watermark, or an empty one, an ordinary pass is a
    full synchronisation: [synchronize false] does exactly what
    [synchronize true] does. *)
Theorem first_sync_is_full w :
  truthy (stored_watermark w) = false →
  synchronize sb env false w = synchronize sb env true w.
Proof.
  intros Hmark. rewrite !synchronize_unfold.
  destruct (is_offline w); [done|]. destruct (isSyncing w); [done|].
  unfold try_catch, bind.
  destruct (push_phase sb env (set_isSyncing true w)) as [[[]|e] w1] eqn:Hpush;
    [|done].
  destruct (keeps_engine_state_push_phase sb env _ _ _ Hpush) as [Hls1 _].
  change (localStorage w1 = localStorage w) in Hls1.
  assert (pull_fetch sb env false w1 = pull_fetch sb env true w1) as Hfetch.
  { unfold pull_fetch, getLastSyncTimestamp, bind, get_world, ret.
    unfold stored_watermark in Hmark. rewrite <- Hls1 in Hmark.
    destruct (localStorage w1) as [item|]; [|done]. simpl in Hmark.
    unfold call_action, bind, tick.
    destruct (action_reachable env (step w1)); [|done].
    simpl. by rewrite (fetchServerUpdates_no_watermark item). }
  unfold pull_phase, bind. by rewrite Hfetch.
Qed.

(** X17.  When the database cannot be opened at the start of a pass, the
    pass ends at once with a failure result that carries the storage error:
    nothing is sent to the server, and the store, the watermark and the flag
    are as before. *)
Theorem synchronize_without_storage (forceFullSync : bool) w :
  is_offline w = false → isSyncing w = false →
  storage_available env (step w) = false →
  synchronize sb env forceFullSync w
  = (Returned (mkSyncResult false None (Some (ErrorCaught (DBFailed StorageFailure)))),
     set_step (S (step w)) w).
Proof.
  intros Hoff Hs Hst. unfold synchronize, bind at 1, get_world. rewrite Hoff, Hs.
  cbv [bind modify try_catch push_phase getPendingChanges_io getDB tick throw ret
         on_failure set_isSyncing set_step step].
  destruct w as [st sy on ls r n]. simpl in *. rewrite Hst. by subst sy.
Qed.

(** X18.  A push that succeeds reconciles in place.  When the server action
    is reached and answers with a record whose server id no other local record
    has, and the database opens, the push of [task] returns with the record
    under its [local_id] replaced by the merge with the server's answer, the
    remote store as the action left it, and that [local_id] no longer among
    the pending changes. *)
Theorem push_one_success (task server_task : Task) (k : string) w (r' : Remote) :
  wf_store (store w) → local_id task = Some k → k ≠ "" →
  action_reachable env (step w) = true →
  storage_available env (S (step w)) = true →
  syncPendingTaskWithServer sb task (remote w)
  = (mkPush true (Some server_task) None, r') →
  (∀ s k' t, id server_task = Some s → store w !! k' = Some t → id t = Some s → k' = k) →
  ∃ w',
    push_one sb env task w = (Returned tt, w') ∧
    store w'
    = <[k := merge_with_server (iso_now (reads env (S (S (step w))))) k
               (store w !! k) server_task]> (store w) ∧
    remote w' = r' ∧
    isSyncing w' = isSyncing w ∧
    ∀ t, t ∈ getPendingChanges (store w') → local_id t ≠ Some k.
Proof.
  intros Hwf Hl Hk Hreach Hdb Hpush Hfree.
  pose proof (updateTaskAfterSync_no_conflict
                (iso_now (reads env (S (S (step w))))) k server_task (store w)
                Hwf Hfree) as Hrun.
  destruct w as [st sy on ls r n]. simpl in *.
  exists (mkWorld
            (<[k := merge_with_server (iso_now (reads env (S (S n)))) k (st !! k)
                      server_task]> st)
            sy on ls r' (S (S (S n)))).
  split_and!; try done.
  - unfold push_one, try_catch, bind at 1, call_action, bind at 1, tick.
    simpl. rewrite Hreach. simpl. rewrite Hpush. simpl.
    assert (truthy (Some k) = true) as Ht by (apply truthy_Some; eauto).
    rewrite Hl. simpl in Ht. simpl. rewrite Ht.
    unfold updateTaskAfterSync_io, getDB, read_env, bind, tick, transaction, ret.
    simpl. rewrite Hdb. simpl. rewrite Hrun. reflexivity.
  - simpl. by apply (not_pending_after_reconcile _ _ _ _ _ Hwf Hk Hrun).
Qed.

(** *** The watermark and a forced pass *)

Lemma watermark_blind_ret {A} (a : A) : watermark_blind (Remote := Remote) (ret a).
Proof. done. Qed.

Lemma watermark_blind_throw {A} e : watermark_blind (Remote := Remote) (throw (A := A) e).
Proof. done. Qed.

Lemma watermark_blind_bind {A B} (m : M A) (k : A → M B) :
  watermark_blind m → (∀ a, watermark_blind (Remote := Remote) (k a)) →
  watermark_blind (bind m k).
Proof.
  intros Hm Hk w v. unfold bind. rewrite Hm.
  destruct (m w) as [[a|e] w1]; simpl; [apply Hk | done].
Qed.

Lemma watermark_blind_try_catch {A} (m : M A) (h : Exn → M A) :
  watermark_blind m → (∀ e, watermark_blind (Remote := Remote) (h e)) →
  watermark_blind (try_catch m h).
Proof.
  intros Hm Hh w v. unfold try_catch. rewrite Hm.
  destruct (m w) as [[a|e] w1]; simpl; [done | apply Hh].
Qed.

Lemma watermark_blind_tick : watermark_blind (Remote := Remote) tick.
Proof. done. Qed.

Lemma watermark_blind_getDB : watermark_blind (Remote := Remote) (getDB env).
Proof.
  apply watermark_blind_bind; [apply watermark_blind_tick|].
  intros n. by destruct (storage_available env n).
Qed.

Lemma watermark_blind_read_env : watermark_blind (Remote := Remote) (read_env env).
Proof. by apply watermark_blind_bind; [apply watermark_blind_tick|]. Qed.

Lemma watermark_blind_transaction {A} (f : Store → Result (A * Store)) :
  watermark_blind (Remote := Remote) (transaction f).
Proof.
  intros w v. unfold transaction. simpl.
  by destruct (f (store w)) as [[a st']|e].
Qed.

Lemma watermark_blind_call_action {A} (f : Remote → A * Remote) :
  watermark_blind (Remote := Remote) (call_action env f).
Proof.
  apply watermark_blind_bind; [apply watermark_blind_tick|].
  intros n. destruct (action_reachable env n); [|done].
  intros w v. simpl. by destruct (f (remote w)).
Qed.

Lemma watermark_blind_getPendingChanges_io :
  watermark_blind (Remote := Remote) (getPendingChanges_io env).
Proof.
  apply watermark_blind_bind; [apply watermark_blind_getDB|]. by intros _ w v.
Qed.

Lemma watermark_blind_updateTaskAfterSync_io k t :
  watermark_blind (Remote := Remote) (updateTaskAfterSync_io env k t).
Proof.
  apply watermark_blind_bind; [apply watermark_blind_getDB|]. intros _.
  apply watermark_blind_bind; [apply watermark_blind_read_env|]. intros r.
  apply watermark_blind_transaction.
Qed.

Lemma watermark_blind_bulkSaveTasks_io ts :
  watermark_blind (Remote := Remote) (bulkSaveTasks_io env ts).
Proof.
  apply watermark_blind_bind; [apply watermark_blind_getDB|]. intros _ w v.
  unfold bind, get_world, transaction, modify. simpl.
  by destruct (with_unit _) as [[[] st']|e].
Qed.

Lemma watermark_blind_push_one task :
  watermark_blind (Remote := Remote) (push_one sb env task).
Proof.
  apply watermark_blind_try_catch; [|by intros e].
  apply watermark_blind_bind; [apply watermark_blind_call_action|].
  intros res. destruct (syncedTask res); [|done].
  destruct (_ && _); [|done]. apply watermark_blind_updateTaskAfterSync_io.
Qed.

Lemma watermark_blind_push_loop l :
  watermark_blind (Remote := Remote) (push_loop sb env l).
Proof.
  induction l as [|task rest IH]; simpl; [done|].
  apply watermark_blind_bind; [apply watermark_blind_push_one | done].
Qed.

Lemma watermark_blind_push_phase :
  watermark_blind (Remote := Remote) (push_phase sb env).
Proof.
  apply watermark_blind_bind; [apply watermark_blind_getPendingChanges_io|].
  apply watermark_blind_push_loop.
Qed.

Lemma watermark_blind_forced_fetch :
  watermark_blind (Remote := Remote) (pull_fetch sb env true).
Proof.
  apply watermark_blind_bind; [done|]. intros l. apply watermark_blind_call_action.
Qed.

(** With [localStorage] present, the end of the pass either overwrites the
    watermark or, when the merge throws, leaves it. *)
Lemma pull_merge_and_finish_overwrites fetched w (x : option string) :
  ∃ o w3,
    (match tasks fetched with
     | Some [] | None => ret tt
     | Some l => bulkSaveTasks_io env l
     end) w = (o, w3) ∧
    pull_merge_and_finish env fetched (set_localStorage (Some x) w) =
    match o with
    | Returned _ =>
        (Returned (mkSyncResult true (tasks fetched) None),
         set_isSyncing false
           (set_localStorage (Some (Some (iso_now (reads env (step w3)))))
              (set_step (S (step w3)) w3)))
    | Thrown e => (Thrown e, set_localStorage (Some x) w3)
    end.
Proof.
  set (merge := match tasks fetched with
                | Some [] | None => ret tt
                | Some l => bulkSaveTasks_io env l
                end).
  assert (watermark_blind (Remote := Remote) merge) as Hblind.
  { unfold merge. destruct (tasks fetched) as [[|t l]|]; try done.
    apply watermark_blind_bulkSaveTasks_io. }
  destruct (merge w) as [o w3] eqn:E. exists o, w3. split; [done|].
  unfold pull_merge_and_finish, bind at 1. fold merge. rewrite Hblind, E. simpl.
  destruct o as [[]|e]; [|done].
  destruct w3 as [st3 sy3 on3 ls3 r3 n3]. reflexivity.
Qed.

(** A forced pass, for every initial watermark at once. *)
Lemma forced_sync_shape w :
  ∃ (o : Outcome SyncResult) (w' : World (Remote := Remote)) (overwrites : bool),
    (overwrites = false → ∀ r, o = Returned r → success r = false) ∧
    ∀ x, synchronize sb env true (set_localStorage (Some x) w)
         = (o, if overwrites then w' else set_localStorage (Some x) w').
Proof.
  destruct (is_offline w) eqn:Hoff.
  { exists (Returned offline_result), w, false. split; [by intros _ r [= <-]|].
    intros x. rewrite synchronize_unfold.
    change (is_offline (set_localStorage (Some x) w)) with (is_offline w).
    by rewrite Hoff. }
  destruct (isSyncing w) eqn:Hs.
  { exists (Returned busy_result), w, false. split; [by intros _ r [= <-]|].
    intros x. rewrite synchronize_unfold.
    change (is_offline (set_localStorage (Some x) w)) with (is_offline w).
    change (isSyncing (set_localStorage (Some x) w)) with (isSyncing w).
    by rewrite Hoff, Hs. }
  assert (∀ x (body : World (Remote := Remote) → Outcome SyncResult * World),
            (∀ x', body x' = try_catch (bind (push_phase sb env)
                                         (λ _, pull_phase sb env true)) on_failure x') →
            synchronize sb env true (set_localStorage (Some x) w)
            = body (set_localStorage (Some x) (set_isSyncing true w))) as Hstart.
  { intros x body Hbody. rewrite synchronize_unfold, Hbody.
    change (is_offline (set_localStorage (Some x) w)) with (is_offline w).
    change (isSyncing (set_localStorage (Some x) w)) with (isSyncing w).
    by rewrite Hoff, Hs. }
  destruct (push_phase sb env (set_isSyncing true w)) as [[[]|e] w1] eqn:Hpush.
  2: { exists (Returned (mkSyncResult false None (Some (ErrorCaught e)))),
         (set_isSyncing false w1), false.
       split; [by intros _ r [= <-]|]. intros x.
       rewrite (Hstart x _ (λ _, eq_refl)).
       unfold try_catch, bind. by rewrite watermark_blind_push_phase, Hpush. }
  destruct (pull_fetch sb env true w1) as [[fetched|e] w2] eqn:Hfetch.
  2: { exists (Returned (mkSyncResult false None (Some (ErrorCaught e)))),
         (set_isSyncing false w2), false.
       split; [by intros _ r [= <-]|]. intros x.
       rewrite (Hstart x _ (λ _, eq_refl)).
       unfold try_catch, bind at 1. rewrite watermark_blind_push_phase, Hpush. simpl.
       unfold pull_phase, bind. by rewrite watermark_blind_forced_fetch, Hfetch. }
  destruct (pull_merge_and_finish_overwrites fetched w2 None) as (o & w3 & Hm & _).
  destruct o as [[]|e].
  - exists (Returned (mkSyncResult true (tasks fetched) None)),
      (set_isSyncing false
         (set_localStorage (Some (Some (iso_now (reads env (step w3)))))
            (set_step (S (step w3)) w3))), true.
    split; [done|]. intros x. rewrite (Hstart x _ (λ _, eq_refl)).
    unfold try_catch, bind at 1. rewrite watermark_blind_push_phase, Hpush. simpl.
    unfold pull_phase, bind. rewrite watermark_blind_forced_fetch, Hfetch. simpl.
    destruct (pull_merge_and_finish_overwrites fetched w2 x) as (o' & w3' & Hm' & ->).
    assert (o' = Returned tt ∧ w3' = w3) as [-> ->] by (split; congruence).
    done.
  - exists (Returned (mkSyncResult false None (Some (ErrorCaught e)))),
      (set_isSyncing false w3), false.
    split; [by intros _ r [= <-]|]. intros x. rewrite (Hstart x _ (λ _, eq_refl)).
    unfold try_catch, bind at 1. rewrite watermark_blind_push_phase, Hpush. simpl.
    unfold pull_phase, bind. rewrite watermark_blind_forced_fetch, Hfetch. simpl.
    destruct (pull_merge_and_finish_overwrites fetched w2 x) as (o' & w3' & Hm' & ->).
    assert (o' = Thrown e ∧ w3' = w3) as [-> ->] by (split; congruence).
    done.
Qed.

(** X19.  A forced pass ignores the stored watermark: started with two
    different watermarks, [synchronize true] returns the same result and
    leaves the same object store, remote store and flag; and when it reports
    success the two final worlds are the same, watermark included. *)
Theorem forced_sync_ignores_watermark w (a b : option string) :
  let ra := synchronize sb env true (set_localStorage (Some a) w) in
  let rb := synchronize sb env true (set_localStorage (Some b) w) in
  ra.1 = rb.1 ∧
  store ra.2 = store rb.2 ∧ remote ra.2 = remote rb.2 ∧
  isSyncing ra.2 = isSyncing rb.2 ∧
  (∀ r, ra.1 = Returned r → success r = true → ra.2 = rb.2).
Proof.
  destruct (forced_sync_shape w) as (o & w' & overwrites & Hfail & Hrun).
  simpl. rewrite (Hrun a), (Hrun b). simpl.
  destruct overwrites; [done|]. split_and!; try done.
  intros r Ho Hs. rewrite (Hfail eq_refl r Ho) in Hs. done.
Qed.

End EngineMore.

Lemma watermark_moves_with_success_witness :
  ∃ n,
    localStorage
      (synchronize Scenario.supabase Scenario.fair_weather false
         (Scenario.browser Scenario.store_milk false true
            (Scenario.server_with_bread true))).2
    = Some (Some (iso_now (reads Scenario.fair_weather n))).
Proof.
  destruct (synchronize Scenario.supabase Scenario.fair_weather false
              (Scenario.browser Scenario.store_milk false true
                 (Scenario.server_with_bread true)))
    as [[r|e] w'] eqn:Hrun; [|by vm_compute in Hrun].
  destruct (watermark_moves_with_success Scenario.supabase Scenario.fair_weather
              false _ r w' Hrun) as [_ Hmark].
  apply Hmark.
  - vm_compute in Hrun. by injection Hrun as <- _.
  - vm_compute. eauto.
Defined.

Lemma first_sync_is_full_witness :
  synchronize Scenario.supabase Scenario.fair_weather false
    (Scenario.browser Scenario.store_milk false true (Scenario.server_with_bread true))
  = synchronize Scenario.supabase Scenario.fair_weather true
      (Scenario.browser Scenario.store_milk false true (Scenario.server_with_bread true)).
Proof. apply first_sync_is_full. reflexivity. Defined.

Lemma synchronize_without_storage_witness :
  synchronize Scenario.supabase
    (mkOracles (λ _, Scenario.the_reads) (λ _, false) (λ _, true)) false
    (Scenario.browser Scenario.store_milk false true (Scenario.server_with_bread true))
  = (Returned (mkSyncResult false None (Some (ErrorCaught (DBFailed StorageFailure)))),
     set_step 1
       (Scenario.browser Scenario.store_milk false true
          (Scenario.server_with_bread true))).
Proof. apply synchronize_without_storage; reflexivity. Defined.

(** * The server actions *)

Section ServerActions.
Context {Remote : Type}.
Variable sb : Supabase Remote.

Lemma perform_tagged (c : GatewayCall) (r r' : Remote) (t : Task) :
  perform sb c r = (inr t, r') → sync_status t = Some synced.
Proof.
  destruct c as [payload|i payload|i]; simpl;
    unfold onlineDB_createTask, onlineDB_updateTask, onlineDB_softDeleteTask.
  - destruct (insert_row sb payload r) as [[e|data] r1]; [done|].
    by intros [= <- _].
  - destruct (update_row sb i _ r) as [[e|data] r1]; [done|]. by intros [= <- _].
  - destruct (update_row sb i _ r) as [[e|data] r1]; [done|]. by intros [= <- _].
Qed.

(** X20.  The answer of [syncPendingTaskWithServer] is one of two shapes:
    success with a record and no error, or failure with an error and no
    record; and a record it returns is always tagged [synced], whatever the
    remote store sent. *)
Theorem syncPendingTaskWithServer_answer (task : Task) (r : Remote) :
  let res := (syncPendingTaskWithServer sb task r).1 in
  (p_success res = true ∧ is_Some (syncedTask res) ∧ p_error res = None ∨
   p_success res = false ∧ syncedTask res = None ∧ is_Some (p_error res)) ∧
  (∀ t, syncedTask res = Some t → sync_status t = Some synced).
Proof.
  simpl. unfold syncPendingTaskWithServer.
  destruct (dispatch task) as [c|]; simpl.
  - destruct (perform sb c r) as [[msg|t] r'] eqn:E; simpl.
    + split; [right; eauto | done].
    + split; [left; eauto|]. intros t' [= <-]. by eapply perform_tagged.
  - split; [right; eauto | done].
Qed.

(** X21.  The answer of [fetchServerUpdates] holds either the rows or an
    error, never both and never neither; every row is tagged [synced], so
    whatever [bulkSaveTasks] then stores from the page is stored as [synced];
    and an empty watermark fetches what no watermark fetches. *)
Theorem fetchServerUpdates_answer (since : option string) (r : Remote) :
  let res := (fetchServerUpdates sb since r).1 in
  (is_Some (tasks res) ∧ f_error res = None ∨
   tasks res = None ∧ is_Some (f_error res)) ∧
  (∀ ts t, tasks res = Some ts → t ∈ ts →
     sync_status t = Some synced ∧
     ∀ rd (st : Store), sync_status (bulk_record rd t st) = Some synced) ∧
  fetchServerUpdates sb (Some "") r = fetchServerUpdates sb None r.
Proof.
  simpl. split_and!.
  - unfold fetchServerUpdates.
    destruct (onlineDB_getTasksModifiedSince sb since r) as [[msg|ts] r']; simpl;
      [right | left]; eauto.
  - intros ts t. unfold fetchServerUpdates, onlineDB_getTasksModifiedSince.
    destruct (select_rows sb _ r) as [[msg|data] r']; simpl; [done|].
    intros [= <-] (d & -> & _)%list_elem_of_fmap.
    split; [done|]. intros rd st. unfold bulk_record, bulk_stamp.
    set (c := consolidate st (bulk_assign_local_id rd (tag_synced d))).
    assert (sync_status c = Some synced) as Hc.
    { unfold c, bulk_assign_local_id, consolidate. crush_ifs. }
    destruct c as [ci cl ct cd ca cs cdel cc cu csy]. simpl in *. subst csy.
    crush_ifs.
  - done.
Qed.

(** X22.  [deleteTaskAction]: an empty id is refused without a request to
    the remote store; a failure always carries a non-empty message; and the
    action does to the remote store what pushing a [pending_delete] record
    with the same server id does, with the same verdict. *)
Theorem deleteTaskAction_answer (taskId : string) (r : Remote) :
  (taskId = "" → (deleteTaskAction sb taskId r).2 = r ∧
                 a_success (deleteTaskAction sb taskId r).1 = false) ∧
  (a_success (deleteTaskAction sb taskId r).1 = false →
   truthy (a_error (deleteTaskAction sb taskId r).1) = true) ∧
  (∀ task, id task = Some taskId → taskId ≠ "" →
     sync_status task = Some pending_delete →
     (deleteTaskAction sb taskId r).2 = (syncPendingTaskWithServer sb task r).2 ∧
     a_success (deleteTaskAction sb taskId r).1
     = p_success (syncPendingTaskWithServer sb task r).1).
Proof.
  unfold deleteTaskAction. split_and!.
  - by intros ->.
  - destruct (negb (truthy (Some taskId))); [done|].
    destruct (onlineDB_softDeleteTask sb taskId r) as [[msg|t] r']; simpl; [|done].
    intros _. unfold js_or. destruct (truthy (Some msg)) eqn:E; done.
  - intros task Hid Hne Hs.
    assert (truthy (Some taskId) = true) as Ht by (apply truthy_Some; eauto).
    rewrite Ht. simpl. unfold syncPendingTaskWithServer, dispatch.
    rewrite Hs, Hid, Ht. simpl.
    by destruct (onlineDB_softDeleteTask sb taskId r) as [[msg|t] r'].
Qed.

End ServerActions.

Lemma deleteTaskAction_answer_witness :
  (deleteTaskAction Scenario.supabase "" (Scenario.server_with_bread true)).2
  = Scenario.server_with_bread true ∧
  truthy (a_error (deleteTaskAction Scenario.unavailable "srv-1"
                     (Scenario.server_with_bread true)).1) = true ∧
  (deleteTaskAction Scenario.supabase "srv-1" (Scenario.server_with_bread true)).2
  = (syncPendingTaskWithServer Scenario.supabase
       (set_sync_status (Some pending_delete) Scenario.bread_edited)
       (Scenario.server_with_bread true)).2.
Proof.
  destruct (deleteTaskAction_answer Scenario.supabase ""
              (Scenario.server_with_bread true)) as ([Hempty _] & _ & _);
    [reflexivity|].
  destruct (deleteTaskAction_answer Scenario.unavailable "srv-1"
              (Scenario.server_with_bread true)) as (_ & Hmsg & _).
  destruct (deleteTaskAction_answer Scenario.supabase "srv-1"
              (Scenario.server_with_bread true)) as (_ & _ & Hsame).
  split_and!.
  - exact Hempty.
  - apply Hmsg. reflexivity.
  - apply (Hsame (set_sync_status (Some pending_delete) Scenario.bread_edited));
      [reflexivity | discriminate | reflexivity].
Defined.

(** * The offline paths of the components *)

Lemma consolidate_at_home (st : Store) (t : Task) k :
  wf_store st → local_id t = Some k →
  (∀ s k' t', id t = Some s → st !! k' = Some t' → id t' = Some s → k' = k) →
  consolidate st t = t.
Proof.
  intros Hwf Hl Hhome. unfold consolidate.
  destruct (truthy (id t)) eqn:Ht; [|done].
  apply truthy_Some in Ht as (s & Hs & _). rewrite Hs. simpl.
  destruct (getFromIndex_id s st) as [e|] eqn:He; [|done].
  apply getFromIndex_id_inv in He as (k' & Hk' & Hide).
  assert (k' = k) as -> by eauto.
  destruct (wf_store_key _ _ _ Hwf Hk') as [Hle _].
  rewrite Hle, Hl. rewrite bool_decide_eq_false_2 by (intros H; by apply H).
  by rewrite andb_false_r.
Qed.

(** A record saved under its own non-blank key, its server id held by no
    other record: stamped and written in place. *)
Lemma saveTask_in_place (r : Reads) (t : Task) (st : Store) k :
  wf_store st → local_id t = Some k → blank k = false →
  (∀ s k' t', id t = Some s → st !! k' = Some t' → id t' = Some s → k' = k) →
  saveTask r t st = Ok (k, <[k := save_stamp r t]> st).
Proof.
  intros Hwf Hl Hb Hhome.
  assert (save_record r t st = save_stamp r t) as Hrec.
  { unfold save_record. rewrite (save_assign_local_id_keeps r t k) by done.
    by rewrite (consolidate_at_home st t k). }
  apply saveTask_Ok. rewrite Hrec, save_stamp_local_id. split; [done|].
  apply put_Ok. exists k. rewrite save_stamp_local_id. split_and!; [done..|].
  intros s k' t'. rewrite save_stamp_id. eauto.
Qed.

Lemma stored_is_at_home (st : Store) k (task : Task) :
  wf_store st → st !! k = Some task →
  ∀ s k' t', id task = Some s → st !! k' = Some t' → id t' = Some s → k' = k.
Proof. intros Hwf Hk s k' t' Hs Hk' Hid'. eapply wf_store_unique; eauto. Qed.

(** X23.  Deleting offline.  For a stored record with a server id,
    [markForOfflineDelete] keeps the record under its key as a tombstone
    waiting to be sent: deleted, [pending_delete], same server id, among the
    pending changes, to be pushed as a soft delete of that id, and, not being
    [synced], still listed by [getAllTasks].  For a stored record that was
    never sent (no server id) it removes the record, and nothing about it is
    left to push. *)
Theorem markForOfflineDelete_lifecycle (now : string) (r : Reads) (task : Task)
    (k : string) (st : Store) :
  wf_store st → st !! k = Some task → blank k = false →
  (∀ s, id task = Some s → s ≠ "" →
     ∃ t',
       markForOfflineDelete now r task st = Ok (<[k := t']> st) ∧
       is_deleted t' = Some true ∧ sync_status t' = Some pending_delete ∧
       id t' = Some s ∧
       title t' = title task ∧ status t' = status task ∧
       t' ∈ getPendingChanges (<[k := t']> st) ∧
       t' ∈ getAllTasks (<[k := t']> st) ∧
       dispatch t' = Some (CallSoftDelete s)) ∧
  (truthy (id task) = false →
     markForOfflineDelete now r task st = Ok (delete k st) ∧
     ∀ t, t ∈ getPendingChanges (delete k st) → local_id t ≠ Some k).
Proof.
  intros Hwf Hk Hb.
  destruct (wf_store_key _ _ _ Hwf Hk) as [Hl Hne].
  split.
  - intros s Hs Hnes.
    assert (truthy (id task) = true) as Ht by (apply truthy_Some; eauto).
    set (u := set_updated_at (Some now)
                (set_sync_status (Some pending_delete)
                   (set_is_deleted (Some true) task))).
    assert (saveTask r u st = Ok (k, <[k := save_stamp r u]> st)) as Hsave.
    { apply saveTask_in_place; try done.
      exact (stored_is_at_home st k task Hwf Hk). }
    assert (sync_status (save_stamp r u) = Some pending_delete) as Hsync.
    { unfold save_stamp. change (id u) with (id task). rewrite Ht. simpl.
      crush_ifs. }
    assert (domain (save_stamp r u) = domain u) as Hdom by apply save_stamp_domain.
    injection Hdom as Htitle _ _ Hstatus Hdel.
    exists (save_stamp r u).
    split_and!; try done.
    + unfold markForOfflineDelete. rewrite Ht. fold u. by rewrite Hsave.
    + by rewrite save_stamp_id.
    + apply elem_of_getPendingChanges. split; [|by right; right].
      exists k. apply lookup_insert_eq.
    + apply elem_of_getAllTasks. split; [exists k; apply lookup_insert_eq|].
      intros [_ ?]. congruence.
    + unfold dispatch. rewrite Hsync, save_stamp_id.
      change (id u) with (id task). by rewrite Ht, Hs.
  - intros Ht. split.
    + unfold markForOfflineDelete, deleteTask. rewrite Ht, Hl.
      assert (truthy (Some k) = true) as -> by (apply truthy_Some; eauto).
      done.
    + intros t [[k' Hk'] _]%elem_of_getPendingChanges Hlt.
      apply lookup_delete_Some in Hk' as [Hkk Hk'].
      destruct (wf_store_key _ _ _ Hwf Hk') as [Hl' _]. congruence.
Qed.

Lemma markForOfflineDelete_lifecycle_witness :
  (∃ t',
     markForOfflineDelete "2026-01-02T08:00:00.000Z" Scenario.the_reads
       Scenario.bread_edited Scenario.store_milk_B
     = Ok (<["local_B" := t']> Scenario.store_milk_B) ∧
     is_deleted t' = Some true ∧ sync_status t' = Some pending_delete ∧
     id t' = Some "srv-1" ∧
     title t' = title Scenario.bread_edited ∧
     status t' = status Scenario.bread_edited ∧
     t' ∈ getPendingChanges (<["local_B" := t']> Scenario.store_milk_B) ∧
     t' ∈ getAllTasks (<["local_B" := t']> Scenario.store_milk_B) ∧
     dispatch t' = Some (CallSoftDelete "srv-1")) ∧
  markForOfflineDelete "2026-01-02T08:00:00.000Z" Scenario.the_reads
    Scenario.milk Scenario.store_milk_B
  = Ok (delete "local_1" Scenario.store_milk_B).
Proof.
  assert (wf_store Scenario.store_milk_B) as Hwf.
  { apply (bool_decide_unpack _). vm_compute. exact I. }
  destruct (markForOfflineDelete_lifecycle "2026-01-02T08:00:00.000Z"
              Scenario.the_reads Scenario.bread_edited "local_B"
              Scenario.store_milk_B Hwf) as [Hsent _];
    [vm_compute; reflexivity | reflexivity |].
  destruct (markForOfflineDelete_lifecycle "2026-01-02T08:00:00.000Z"
              Scenario.the_reads Scenario.milk "local_1"
              Scenario.store_milk_B Hwf) as [_ Hnever];
    [vm_compute; reflexivity | reflexivity |].
  split.
  - apply Hsent; [reflexivity | discriminate].
  - apply Hnever. reflexivity.
Defined.

(** X24.  Once the soft delete has been pushed and reconciled with a server
    record that is deleted, the record is a reconciled tombstone: it stays in
    the store, under its key, but [getAllTasks] no longer lists it and it is
    no longer pending. *)
Theorem tombstone_is_hidden (now k : string) (serverTask : Task) (st st' : Store) :
  wf_store st → k ≠ "" → is_deleted serverTask = Some true →
  (∀ s k' t, id serverTask = Some s → st !! k' = Some t → id t = Some s → k' = k) →
  updateTaskAfterSync now k serverTask st = Ok st' →
  ∃ m, st' !! k = Some m ∧ (m ∉ getAllTasks st') ∧ (m ∉ getPendingChanges st').
Proof.
  intros Hwf Hk Hdel Hfree Hrun.
  rewrite (updateTaskAfterSync_no_conflict now k serverTask st Hwf Hfree) in Hrun.
  injection Hrun as <-.
  set (m := merge_with_server now k (st !! k) serverTask).
  assert (sync_status m = Some synced) as Hs by apply merge_with_server_sync.
  assert (is_deleted m = Some true) as Hd.
  { pose proof (f_equal d_is_deleted
                  (merge_with_server_domain now k (st !! k) serverTask)) as Hdom.
    change (is_deleted m = is_deleted (spread (st !! k) serverTask)) in Hdom.
    rewrite Hdom. destruct (st !! k); simpl; by rewrite Hdel. }
  exists m. split_and!.
  - apply lookup_insert_eq.
  - intros [_ Hvis]%elem_of_getAllTasks. by apply Hvis.
  - intros [_ Hp]%elem_of_getPendingChanges. unfold is_pending in Hp.
    rewrite Hs in Hp. by destruct Hp as [?|[?|?]].
Qed.

Lemma tombstone_is_hidden_witness :
  ∃ m,
    (<["local_B" := merge_with_server "2026-01-02T08:00:01.000Z" "local_B"
                      (Scenario.store_milk_B !! "local_B")
                      (set_is_deleted (Some true) Scenario.bread_from_server)]>
       Scenario.store_milk_B) !! "local_B" = Some m ∧
    (m ∉ getAllTasks
           (<["local_B" := merge_with_server "2026-01-02T08:00:01.000Z" "local_B"
                             (Scenario.store_milk_B !! "local_B")
                             (set_is_deleted (Some true) Scenario.bread_from_server)]>
              Scenario.store_milk_B)) ∧
    (m ∉ getPendingChanges
           (<["local_B" := merge_with_server "2026-01-02T08:00:01.000Z" "local_B"
                             (Scenario.store_milk_B !! "local_B")
                             (set_is_deleted (Some true) Scenario.bread_from_server)]>
              Scenario.store_milk_B)).
Proof.
  assert (wf_store Scenario.store_milk_B) as Hwf.
  { apply (bool_decide_unpack _). vm_compute. exact I. }
  apply (tombstone_is_hidden "2026-01-02T08:00:01.000Z" "local_B"
           (set_is_deleted (Some true) Scenario.bread_from_server)
           Scenario.store_milk_B).
  - exact Hwf.
  - discriminate.
  - reflexivity.
  - intros s k' t [= <-] Hk' Hid.
    assert (Scenario.store_milk_B !! "local_B" = Some Scenario.bread_edited) as HB
      by (vm_compute; reflexivity).
    exact (wf_store_unique _ _ _ _ _ _ Hwf Hk' HB Hid eq_refl).
  - vm_compute. reflexivity.
Defined.

Lemma save_stamp_sync_with_id r t :
  truthy (id t) = true → is_Some (sync_status t) →
  sync_status (save_stamp r t) = sync_status t.
Proof.
  destruct t as [ti tl tt td ta ts tdel tc tu tsy]. simpl. intros Hid [s ->].
  destruct ti as [[|? ?]|]; try discriminate Hid.
  unfold save_stamp. simpl. crush_ifs.
Qed.

(** X25.  Editing offline.  For a record stored under a key that [trim] does
    not leave empty, [saveUpdateOffline] with updates that touch neither the
    key nor the server id rewrites the record in place with the edited
    fields, and the edit is always queued: as
    [pending_update], to be pushed as an update of its server id, when the
    record has one; as [pending_create], to be pushed as a create, when it has
    none. *)
Theorem saveUpdateOffline_queues (r : Reads) (task : Task) (updates : PartialTask)
    (k : string) (st : Store) :
  wf_store st → st !! k = Some task → blank k = false →
  p_id updates = None → p_local_id updates = None →
  ∃ t',
    saveUpdateOffline r task updates st = Ok (<[k := t']> st) ∧
    domain t' = domain (spread_partial task updates) ∧
    id t' = id task ∧ local_id t' = Some k ∧
    sync_status t'
    = Some (if truthy (id task) then pending_update else pending_create) ∧
    t' ∈ getPendingChanges (<[k := t']> st) ∧
    dispatch t'
    = Some (if truthy (id task)
            then CallUpdate (default "" (id task)) (payloadForUpdate t')
            else CallCreate (payloadForCreate t')).
Proof.
  intros Hwf Hk Hb Hpi Hpl.
  destruct (wf_store_key _ _ _ Hwf Hk) as [Hl Hne].
  set (u := set_sync_status
              (Some (if truthy (id task) then pending_update else pending_create))
              (spread_partial task updates)).
  assert (id u = id task) as Hid by (unfold u; simpl; by rewrite Hpi).
  assert (local_id u = Some k) as Hlu by (unfold u; simpl; by rewrite Hpl).
  assert (saveTask r u st = Ok (k, <[k := save_stamp r u]> st)) as Hsave.
  { apply saveTask_in_place; try done. rewrite Hid.
    exact (stored_is_at_home st k task Hwf Hk). }
  assert (sync_status (save_stamp r u)
          = Some (if truthy (id task) then pending_update else pending_create))
    as Hsync.
  { destruct (truthy (id task)) eqn:Ht.
    - rewrite save_stamp_sync_with_id; [done | by rewrite Hid | by eexists].
    - apply save_stamp_without_id. by rewrite Hid. }
  exists (save_stamp r u). split_and!.
  - unfold saveUpdateOffline. fold u. by rewrite Hsave.
  - by rewrite save_stamp_domain.
  - by rewrite save_stamp_id.
  - by rewrite save_stamp_local_id.
  - done.
  - apply elem_of_getPendingChanges. split; [exists k; apply lookup_insert_eq|].
    unfold is_pending. rewrite Hsync. destruct (truthy (id task)); eauto.
  - unfold dispatch. rewrite Hsync, save_stamp_id, Hid.
    by destruct (truthy (id task)).
Qed.

Lemma saveUpdateOffline_queues_witness :
  ∃ t',
    saveUpdateOffline Scenario.the_reads Scenario.bread_edited
      (mkPartial None None None None None (Some completed) None None
         (Some "2026-01-02T08:00:00.000Z") None)
      Scenario.store_milk_B
    = Ok (<["local_B" := t']> Scenario.store_milk_B) ∧
    domain t'
    = domain (spread_partial Scenario.bread_edited
                (mkPartial None None None None None (Some completed) None None
                   (Some "2026-01-02T08:00:00.000Z") None)) ∧
    id t' = id Scenario.bread_edited ∧ local_id t' = Some "local_B" ∧
    sync_status t'
    = Some (if truthy (id Scenario.bread_edited)
            then pending_update else pending_create) ∧
    t' ∈ getPendingChanges (<["local_B" := t']> Scenario.store_milk_B) ∧
    dispatch t'
    = Some (if truthy (id Scenario.bread_edited)
            then CallUpdate (default "" (id Scenario.bread_edited))
                   (payloadForUpdate t')
            else CallCreate (payloadForCreate t')).
Proof.
  apply saveUpdateOffline_queues.
  - apply (bool_decide_unpack _). vm_compute. exact I.
  - vm_compute. reflexivity.
  - reflexivity.
  - reflexivity.
  - reflexivity.
Defined.

(** X26.  Creating offline.  [saveOffline] always returns in a store that
    satisfies the index: the new record is stored under the [local_id] the
    component made up, without a server id, as [pending_create]; it is listed
    and pending; and what will be pushed for it is a create whose payload is
    exactly the validated form. *)
Theorem saveOffline_round_trip (r0 r : Reads) (taskData : CreateTaskPayload)
    (st : Store) :
  wf_store st →
  ∃ t',
    saveOffline r0 r taskData st
    = Ok ("local_" ++ date_now r0 ++ "_" ++ random_suffix r0,
          <["local_" ++ date_now r0 ++ "_" ++ random_suffix r0 := t']> st) ∧
    id t' = None ∧ sync_status t' = Some pending_create ∧
    is_deleted t' = Some false ∧
    payloadForCreate t' = taskData ∧
    dispatch t' = Some (CallCreate taskData) ∧
    t' ∈ getPendingChanges
           (<["local_" ++ date_now r0 ++ "_" ++ random_suffix r0 := t']> st) ∧
    t' ∈ getAllTasks
           (<["local_" ++ date_now r0 ++ "_" ++ random_suffix r0 := t']> st).
Proof.
  intros Hwf.
  set (k := "local_" ++ date_now r0 ++ "_" ++ random_suffix r0).
  assert (saveTask r (localTask r0 taskData) st
          = Ok (k, <[k := save_stamp r (localTask r0 taskData)]> st)) as Hsave.
  { apply saveTask_in_place; try done. }
  assert (sync_status (save_stamp r (localTask r0 taskData)) = Some pending_create)
    as Hsync by by apply save_stamp_without_id.
  assert (domain (save_stamp r (localTask r0 taskData))
          = domain (localTask r0 taskData)) as Hdom by apply save_stamp_domain.
  assert (payloadForCreate (save_stamp r (localTask r0 taskData)) = taskData) as Hpay.
  { unfold payloadForCreate. injection Hdom as -> -> -> -> _. by destruct taskData. }
  exists (save_stamp r (localTask r0 taskData)). split_and!; try done.
  - by rewrite save_stamp_id.
  - by injection Hdom as _ _ _ _ ->.
  - unfold dispatch. by rewrite Hsync, save_stamp_id, Hpay.
  - apply elem_of_getPendingChanges. split; [exists k; apply lookup_insert_eq|].
    by left.
  - apply elem_of_getAllTasks. split; [exists k; apply lookup_insert_eq|].
    intros [_ ?]. congruence.
Qed.

Lemma saveOffline_round_trip_witness :
  ∃ t',
    saveOffline Scenario.the_reads Scenario.the_reads
      (mkCreate "Call the plumber" None (Some "Ana") pending) Scenario.store_milk_B
    = Ok ("local_" ++ date_now Scenario.the_reads ++ "_"
            ++ random_suffix Scenario.the_reads,
          <["local_" ++ date_now Scenario.the_reads ++ "_"
              ++ random_suffix Scenario.the_reads := t']> Scenario.store_milk_B) ∧
    id t' = None ∧ sync_status t' = Some pending_create ∧
    is_deleted t' = Some false ∧
    payloadForCreate t' = mkCreate "Call the plumber" None (Some "Ana") pending ∧
    dispatch t'
    = Some (CallCreate (mkCreate "Call the plumber" None (Some "Ana") pending)) ∧
    t' ∈ getPendingChanges
           (<["local_" ++ date_now Scenario.the_reads ++ "_"
                ++ random_suffix Scenario.the_reads := t']> Scenario.store_milk_B) ∧
    t' ∈ getAllTasks
           (<["local_" ++ date_now Scenario.the_reads ++ "_"
                ++ random_suffix Scenario.the_reads := t']> Scenario.store_milk_B).
Proof.
  apply saveOffline_round_trip.
  apply (bool_decide_unpack _). vm_compute. exact I.
Defined.

(** * A pass without network, and the watermark slot *)

Section EngineEdges.
Context {Remote : Type}.
Variable sb : Supabase Remote.
Variable env : Oracles.
Implicit Types w : World (Remote := Remote).

Lemma call_action_unreachable {A} (f : Remote → A * Remote) w :
  action_reachable env (step w) = false →
  call_action env f w = (Thrown ActionUnreachable, set_step (S (step w)) w).
Proof. intros H. unfold call_action, bind, tick, throw. simpl. by rewrite H. Qed.

Lemma push_loop_unreachable (l : list Task) w :
  (∀ n, action_reachable env n = false) →
  push_loop sb env l w = (Returned tt, set_step (length l + step w) w).
Proof.
  intros Hdown. revert w. induction l as [|task rest IH]; intros w; simpl.
  - by destruct w.
  - unfold bind, push_one, try_catch, bind.
    rewrite call_action_unreachable by done. unfold ret at 1.
    rewrite IH. destruct w as [st sy on ls r n]. simpl.
    unfold set_step. simpl. do 2 f_equal. lia.
Qed.

Lemma pull_phase_unreachable (forceFullSync : bool) w :
  (∀ n, action_reachable env n = false) →
  pull_phase sb env forceFullSync w
  = (Thrown ActionUnreachable, set_step (S (step w)) w).
Proof.
  intros Hdown. unfold pull_phase, bind at 1, pull_fetch, bind at 1.
  destruct forceFullSync.
  - unfold ret at 1. by rewrite call_action_unreachable.
  - unfold getLastSyncTimestamp, bind at 1, get_world.
    destruct (localStorage w); unfold ret at 1; by rewrite call_action_unreachable.
Qed.

(** X27.  A pass during which no server action gets through fails cleanly:
    [synchronize] returns a failure result, and the object store, the
    watermark and the remote store are exactly as before, with the flag
    released; every pending record is still pending for the next pass. *)
Theorem synchronize_without_network (forceFullSync : bool) w :
  (∀ n, action_reachable env n = false) →
  is_offline w = false → isSyncing w = false →
  ∃ e w',
    synchronize sb env forceFullSync w
    = (Returned (mkSyncResult false None (Some (ErrorCaught e))), w') ∧
    store w' = store w ∧ localStorage w' = localStorage w ∧
    remote w' = remote w ∧ isSyncing w' = false ∧
    getPendingChanges (store w') = getPendingChanges (store w).
Proof.
  intros Hdown Hoff Hs. rewrite synchronize_unfold, Hoff, Hs.
  unfold try_catch, bind at 1, push_phase, bind at 1.
  unfold getPendingChanges_io, bind at 1, getDB, bind at 1, tick.
  destruct (storage_available env (step (set_isSyncing true w))).
  - unfold ret at 1. unfold bind at 1, get_world, ret at 1.
    rewrite push_loop_unreachable, pull_phase_unreachable by done.
    unfold on_failure, bind, modify, ret.
    eexists _, _. split; [reflexivity|]. by destruct w.
  - unfold throw, on_failure, bind, modify, ret.
    eexists _, _. split; [reflexivity|]. by destruct w.
Qed.

End EngineEdges.

Lemma synchronize_without_network_witness :
  ∃ e w',
    synchronize Scenario.supabase Scenario.no_network false
      (Scenario.browser Scenario.store_milk_B false true
         (Scenario.server_with_bread true))
    = (Returned (mkSyncResult false None (Some (ErrorCaught e))), w') ∧
    store w' = Scenario.store_milk_B ∧ localStorage w' = Some None ∧
    remote w' = Scenario.server_with_bread true ∧ isSyncing w' = false ∧
    getPendingChanges (store w') = getPendingChanges Scenario.store_milk_B.
Proof.
  apply (synchronize_without_network Scenario.supabase Scenario.no_network false
           (Scenario.browser Scenario.store_milk_B false true
              (Scenario.server_with_bread true))); reflexivity.
Defined.

Lemma push_one_success_witness :
  ∃ w',
    push_one Scenario.supabase Scenario.fair_weather Scenario.milk
      (Scenario.browser Scenario.store_milk true true
         (Scenario.mkServer [] ["srv-1"] "2026-01-01T09:59:59.000Z" true))
    = (Returned tt, w') ∧
    (store w' !! "local_1") ≫= id = Some "srv-1" ∧
    (store w' !! "local_1") ≫= sync_status = Some synced ∧
    isSyncing w' = true ∧
    Forall (λ t, local_id t ≠ Some "local_1") (getPendingChanges (store w')).
Proof.
  pose (w := Scenario.browser Scenario.store_milk true true
               (Scenario.mkServer [] ["srv-1"] "2026-01-01T09:59:59.000Z" true)).
  pose (answer := syncPendingTaskWithServer Scenario.supabase Scenario.milk (remote w)).
  destruct (push_one_success Scenario.supabase Scenario.fair_weather Scenario.milk
              (default Scenario.milk (syncedTask answer.1)) "local_1" w answer.2)
    as (w' & Hrun & Hstore & _ & Hflag & Hpending).
  - apply (bool_decide_unpack _). vm_compute. exact I.
  - reflexivity.
  - discriminate.
  - reflexivity.
  - reflexivity.
  - vm_compute. reflexivity.
  - intros s k' t _ Hk' Hid. unfold w, Scenario.browser, Scenario.store_milk in Hk'.
    simpl in Hk'. apply lookup_insert_Some in Hk' as [[<- <-]|[_ Hk']]; [done|].
    by rewrite lookup_empty in Hk'.
  - exists w'. split_and!.
    + exact Hrun.
    + rewrite Hstore, lookup_insert_eq. vm_compute. reflexivity.
    + rewrite Hstore, lookup_insert_eq. vm_compute. reflexivity.
    + exact Hflag.
    + apply Forall_forall. exact Hpending.
Defined.
